(** * The serial DAG executor of ploomber ([ploomber/executors/Serial.py])

    A shallow embedding of [Serial.__call__] and [execute_in_subprocess],
    and the properties of the executor's specification proved (or refuted)
    on it.

    The executor talks to collaborators that live outside the file: the
    tasks of the DAG (status property, [build]), the DAG's clients, the
    logging handler, the progress bar and [multiprocessing.Pool].  The
    embedding keeps them behind an interface ([Collaborators]) acting on an
    abstract [World], and every call the executor makes on one of them is
    recorded, with its outcome, in a trace of [Event]s.  Python code is
    written in a small state-and-exception monad [M]. *)

From Stdlib Require Import List String Ascii Bool Arith Lia.
Import ListNotations.

Set Implicit Arguments.

(** ** Python values *)

(** Modelled from the spec: [ploomber.constants.TaskStatus] is not part of
    the file; the spec's data model gives [exec_status] the five values
    below. *)
Inductive TaskStatus : Type :=
| Waiting
| Skipped
| Aborted
| Executed
| Errored.

(** An exception as it reaches an [except Exception] clause.  The only
    thing the executor reads from it is the text [traceback.format_exc()]
    gives while it is being handled: the traceback of the exception as it
    was raised on its way there.  The exception [AsyncResult.get] reraises
    in the executor's process is not the one raised in the worker: it comes
    with the remote traceback ([reraised], among the collaborators
    below). *)
Record Exception : Type := mkException { traceback_text : string }.

Definition format_exc (e : Exception) : string := traceback_text e.

(** What leaves [Serial.__call__]: [DAGBuildError(message)], which it
    raises itself (lines 94-98), or an exception raised where no handler
    is in place. *)
Inductive CallError : Type :=
| DAGBuildError (message : string)
| Propagated (e : Exception).

(** Result of running a piece of Python code. *)
Inductive Outcome (E A : Type) : Type :=
| Returned (a : A)
| Raised (e : E).
Arguments Returned {E A} a.
Arguments Raised {E A} e.

Definition newline : string := String (ascii_of_nat 10) EmptyString.
Definition dquote : string := String (ascii_of_nat 34) EmptyString.

(** Python truthiness of [self.logging_directory] ([None] or a [str]). *)
Definition truthy (o : option string) : bool :=
  match o with
  | Some (String _ _) => true
  | _ => false
  end.

(** ** MessageCollector *)

Module MessageCollector.

(** Modelled from the spec: [ploomber.MessageCollector] is not part of the
    file.  The spec (Error Aggregator) describes it as a run-scoped
    accumulator of failure records: [append(message, task_identity)] adds
    a record, its truth value is non-emptiness, and rendering gives one
    block per record, holding the task's identity and its full trace, the
    blocks concatenated in the order of the appends. *)
Record Message : Type := mkMessage { task_str : string; message : string }.

Definition t : Type := list Message.

Definition new : t := [].

Definition append (mc : t) (message task_str : string) : t :=
  mc ++ [mkMessage task_str message].

Definition bool (mc : t) : bool :=
  match mc with
  | [] => false
  | _ :: _ => true
  end.

Definition block (m : Message) : string :=
  (task_str m ++ newline ++ message m ++ newline)%string.

Definition str (mc : t) : string :=
  fold_right (fun m rest => (block m ++ rest)%string) EmptyString mc.

End MessageCollector.

(** ** The monad: a store, exceptions of type [E], a trace of events *)

Section Monad.

Context {S Ev : Type}.

Definition M (E A : Type) : Type := S -> Outcome E A * S * list Ev.

Definition ret {E A : Type} (a : A) : M E A :=
  fun s => (Returned a, s, []).

Definition raise {E A : Type} (e : E) : M E A :=
  fun s => (Raised e, s, []).

Definition bind {E A B : Type} (m : M E A) (k : A -> M E B) : M E B :=
  fun s =>
    match m s with
    | (Returned a, s1, ev1) =>
        match k a s1 with
        | (r, s2, ev2) => (r, s2, ev1 ++ ev2)
        end
    | (Raised e, s1, ev1) => (Raised e, s1, ev1)
    end.

Definition emit {E : Type} (ev : Ev) : M E unit :=
  fun s => (Returned tt, s, [ev]).

(** [try: body / except Exception as e: handler / else: orelse] *)
Definition try_except_else {E E' A B : Type}
    (body : M E A) (handler : E -> M E' B) (orelse : A -> M E' B)
  : M E' B :=
  fun s =>
    match body s with
    | (Returned a, s1, ev1) =>
        match orelse a s1 with
        | (r, s2, ev2) => (r, s2, ev1 ++ ev2)
        end
    | (Raised e, s1, ev1) =>
        match handler e s1 with
        | (r, s2, ev2) => (r, s2, ev1 ++ ev2)
        end
    end.

(** Code with no handler around it: what it raises leaves the function. *)
Definition unhandled {E E' A : Type} (leaves : E -> E') (m : M E A) : M E' A :=
  fun s =>
    match m s with
    | (Returned a, s1, ev1) => (Returned a, s1, ev1)
    | (Raised e, s1, ev1) => (Raised (leaves e), s1, ev1)
    end.

Definition when {E : Type} (b : bool) (m : M E unit) : M E unit :=
  if b then m else ret tt.

(** [for x in xs: ...], the loop's variables threaded through. *)
Fixpoint for_each {E A L : Type} (xs : list A) (f : A -> L -> M E L)
    (l : L) : M E L :=
  match xs with
  | [] => ret l
  | x :: xs' => bind (f x l) (for_each xs' f)
  end.

(** The three parts of a finished computation. *)
Definition result_of {E A : Type} (x : Outcome E A * S * list Ev)
  : Outcome E A := fst (fst x).

Definition store_of {E A : Type} (x : Outcome E A * S * list Ev) : S :=
  snd (fst x).

Definition trace_of {E A : Type} (x : Outcome E A * S * list Ev)
  : list Ev := snd x.

End Monad.

Arguments M : clear implicits.

Declare Scope py_scope.
Delimit Scope py_scope with py.
Notation "x <- c1 ;; c2" := (bind c1 (fun x => c2))
  (at level 100, c1 at level 99, c2 at level 200, right associativity)
  : py_scope.
Notation "c1 ;; c2" := (bind c1 (fun _ => c2))
  (at level 100, c2 at level 200, right associativity) : py_scope.

(** ** The executor and the DAG *)

(** [Serial.__init__]: the three options kept on the instance (the module
    logger is not used by [__call__]). *)
Record Serial : Type := mkSerial {
  logging_directory : option string;
  logging_level : nat;
  _build_in_subprocess : bool
}.

(** [logging.INFO] *)
Definition logging_INFO : nat := 20.

(** [__init__] and its defaults. *)
Definition __init__ (logging_directory : option string) (logging_level : nat)
    (build_in_subprocess : bool) : Serial :=
  mkSerial logging_directory logging_level build_in_subprocess.

Definition Serial_default : Serial := __init__ None logging_INFO true.

Definition directory_of (o : option string) : string :=
  match o with
  | Some d => d
  | None => EmptyString
  end.

(** [x in {TaskStatus.Skipped, TaskStatus.Aborted}] *)
Definition in_Skipped_Aborted (x : TaskStatus) : bool :=
  match x with
  | Skipped | Aborted => true
  | _ => false
  end.

(** ['Building task "{}"'.format(name)] *)
Definition Building_task (name : string) : string :=
  ("Building task " ++ dquote ++ name ++ dquote)%string.
Arguments Building_task : simpl never.

(** The text in front of [str(exceptions)] in the [DAGBuildError]. *)
Definition DAGBuildError_header : string :=
  ("DAG build failed, the following tasks crashed "
   ++ "(corresponding downstream tasks aborted execution):"
   ++ newline)%string.

Section Executor.

(** The state of everything outside the executor, the handles the DAG
    gives out, the keyword arguments of [build] and its reports. *)
Context {World Task Kwargs Report Client : Type}.

(** What the executor uses of its collaborators.  [exec_status] is the
    property getter and [set_exec_status] its setter, which may raise
    whatever the value set: the executor sets [Errored] in the [except]
    clause with no handler around the write (line 78), and [Executed]
    inside a [try] of its own (lines 85-89).  [build] returns a report or
    raises an [Exception].  Two functions say what [AsyncResult.get] makes
    of what the call did in the worker: [unpicklable r] is the error [get]
    raises when the report [r] cannot be sent back to the executor's
    process ([None] when it can), and [reraised e] is the exception [get]
    raises when the call raised [e]. *)
Class Collaborators : Type := {
  name : Task -> string;
  repr : Task -> string;
  source_value_callable : Task -> bool;
  exec_status : Task -> World -> TaskStatus;
  set_exec_status : Task -> TaskStatus -> World -> option Exception * World;
  build : Task -> Kwargs -> World -> Outcome Exception Report * World;
  unpicklable : Report -> option Exception;
  reraised : Exception -> Exception;
  close : Client -> World -> World
}.

Context {collab : Collaborators}.

(** [dag.values()] and [dag.clients.values()] are the values of two
    insertion-ordered dicts. *)
Record DAG : Type := mkDAG {
  dag_name : string;
  dag_tasks : list (string * Task);
  dag_clients : list (string * Client)
}.

Definition values {K V : Type} (d : list (K * V)) : list V := map snd d.

Definition len {K V : Type} (d : list (K * V)) : nat := List.length d.

(** Calls on collaborators, as they happen.  A pool is named by the
    number of pools created before it. *)
Inductive Event : Type :=
| Executor_call (dag : string)
| LoggerHandler_add (dag directory : string) (level : nat)
| LoggerHandler_remove
| tqdm_new (total : nat)
| tqdm_set_description (text : string)
| Pool_new (p : nat) (processes : nat)
| Pool_apply_async (p : nat) (task : Task) (kwds : Kwargs)
| Pool_close (p : nat)
| Pool_join (p : nat)
| Task_build (worker : option nat) (task : Task) (kwds : Kwargs)
             (result : Outcome Exception Report)
| AsyncResult_get (p : nat) (task : Task)
                  (result : Outcome Exception Report)
| exec_status_set (task : Task) (value : TaskStatus)
                  (raised : option Exception)
| Client_close (c : Client).

Record Store : Type := mkStore { world : World; pools : nat }.

Definition Py (E A : Type) : Type := M Store Event E A.

(** *** Calls on the collaborators *)

(** [t.exec_status] *)
Definition get_exec_status {E : Type} (t : Task) : Py E TaskStatus :=
  fun s => (Returned (exec_status t (world s)), s, []).

(** [t.exec_status = value] *)
Definition assign_exec_status (t : Task) (value : TaskStatus)
  : Py Exception unit :=
  fun s =>
    match set_exec_status t value (world s) with
    | (raised, w) =>
        (match raised with
         | None => Returned tt
         | Some e => Raised e
         end,
         mkStore w (pools s), [exec_status_set t value raised])
    end.

(** [t.build] applied to the keyword arguments, in the process [worker]
    ([None]: the executor's own). *)
Definition run_build (worker : option nat) (t : Task) (kwds : Kwargs)
  : Py Exception Report :=
  fun s =>
    match build t kwds (world s) with
    | (result, w) =>
        (result, mkStore w (pools s), [Task_build worker t kwds result])
    end.

(** [client.close()] *)
Definition client_close {E : Type} (c : Client) : Py E unit :=
  fun s =>
    (Returned tt, mkStore (close c (world s)) (pools s), [Client_close c]).

(** *** multiprocessing.Pool

    [Pool(processes=n)] makes a new pool; [apply_async] hands the call to
    its worker and [get] waits for it.  As the comment in the source quotes
    from the documentation of [AsyncResult.get], [get] returns the result
    of the call when it arrives, and if the remote call raised an exception
    then that exception is reraised by [get].  The result has to come back
    from the worker: [get] raises when it cannot be sent, although the call
    returned.  The world of the embedding is the one [build] acts on,
    whichever process runs it (the memory private to a worker is not part
    of it). *)
Definition Pool {E : Type} (processes : nat) : Py E nat :=
  fun s =>
    (Returned (pools s), mkStore (world s) (Datatypes.S (pools s)),
     [Pool_new (pools s) processes]).

Definition AsyncResult : Type := (nat * Task * Kwargs)%type.

Definition apply_async {E : Type} (p : nat) (func : Task) (kwds : Kwargs)
  : Py E AsyncResult :=
  (emit (Pool_apply_async p func kwds) ;; ret (p, func, kwds))%py.

(** What [get] gives the caller for what the call did in the worker. *)
Definition handed_over (done : Outcome Exception Report)
  : Outcome Exception Report :=
  match done with
  | Returned r =>
      match unpicklable r with
      | None => Returned r
      | Some e => Raised e
      end
  | Raised e => Raised (reraised e)
  end.

Definition get (res : AsyncResult) : Py Exception Report :=
  match res with
  | (p, func, kwds) =>
      fun s =>
        match build func kwds (world s) with
        | (done, w) =>
            (handed_over done, mkStore w (pools s),
             [Task_build (Some p) func kwds done;
              AsyncResult_get p func (handed_over done)])
        end
  end.

(** *** execute_in_subprocess *)

Definition execute_in_subprocess (task : Task) (build_kwargs : Kwargs)
  : Py Exception Report :=
  (p <- Pool 1 ;;
   res <- apply_async p task build_kwargs ;;
   result <- get res ;;
   emit (Pool_close p) ;;
   emit (Pool_join p) ;;
   ret result)%py.

(** *** Serial.__call__ *)

(** The two objects the loop fills. *)
Record Locals : Type := mkLocals {
  exceptions : MessageCollector.t;
  task_reports : list Report
}.

(** One turn of [for t in tasks] (lines 64-91). *)
Definition loop_body (self : Serial) (show_progress : bool)
    (task_kwargs : Kwargs) (t : Task) (l : Locals) : Py CallError Locals :=
  (status <- get_exec_status t ;;
   if in_Skipped_Aborted status then ret l
   else
     when show_progress
       (emit (tqdm_set_description (Building_task (name t)))) ;;
     try_except_else
       (if source_value_callable t && _build_in_subprocess self
        then execute_in_subprocess t task_kwargs
        else run_build None t task_kwargs)
       (fun e =>
          unhandled Propagated (assign_exec_status t Errored) ;;
          let tr := format_exc e in
          ret (mkLocals (MessageCollector.append (exceptions l) tr (repr t))
                        (task_reports l)))
       (fun report =>
          exceptions' <-
            try_except_else (assign_exec_status t Executed)
              (fun e =>
                 let tr := format_exc e in
                 ret (MessageCollector.append (exceptions l) tr (repr t)))
              (fun _ => ret (exceptions l)) ;;
          ret (mkLocals exceptions' (task_reports l ++ [report]))))%py.

(** The loop of lines 64-91. *)
Definition loop (self : Serial) (show_progress : bool)
    (task_kwargs : Kwargs) (tasks : list Task) (l : Locals)
  : Py CallError Locals :=
  for_each tasks (loop_body self show_progress task_kwargs) l.

(** Lines 93-109. *)
Definition finish (self : Serial) (dag : DAG) (l : Locals)
  : Py CallError (list Report) :=
  (if MessageCollector.bool (exceptions l)
   then raise (DAGBuildError
                 (DAGBuildError_header
                  ++ MessageCollector.str (exceptions l))%string)
   else
     when (truthy (logging_directory self)) (emit LoggerHandler_remove) ;;
     when (negb (_build_in_subprocess self))
       (for_each (values (dag_clients dag))
          (fun client _ => client_close client) tt) ;;
     ret (task_reports l))%py.

Definition __call__ (self : Serial) (dag : DAG) (show_progress : bool)
    (task_kwargs : Kwargs) : Py CallError (list Report) :=
  (emit (Executor_call (dag_name dag)) ;;
   when (truthy (logging_directory self))
     (emit (LoggerHandler_add (dag_name dag)
              (directory_of (logging_directory self))
              (logging_level self))) ;;
   tasks <- (if show_progress
             then emit (tqdm_new (len (dag_tasks dag))) ;;
                  ret (values (dag_tasks dag))
             else ret (values (dag_tasks dag))) ;;
   l <- loop self show_progress task_kwargs tasks
          (mkLocals MessageCollector.new []) ;;
   finish self dag l)%py.

(** ** Histories

    What a run did, read off its trace, and the turns of its loop. *)

(** The failure record the loop appends for an exception [e] caught while
    it works on task [t]. *)
Definition failure_record (t : Task) (e : Exception)
  : MessageCollector.Message :=
  MessageCollector.mkMessage (repr t) (format_exc e).

(** The failures of a trace, in the order they occurred: the exceptions
    that reached one of the two [except] clauses of the loop, raised by a
    build in the executor's process, by [get], or by a write of
    [Executed]. *)
Definition failure_of (ev : Event) : list MessageCollector.Message :=
  match ev with
  | Task_build None t _ (Raised e) => [failure_record t e]
  | AsyncResult_get _ t (Raised e) => [failure_record t e]
  | exec_status_set t Executed (Some e) => [failure_record t e]
  | _ => []
  end.

Definition failures (evs : list Event) : list MessageCollector.Message :=
  flat_map failure_of evs.

(** The reports the loop was given, by a build in the executor's process
    or by [get]. *)
Definition report_of (ev : Event) : list Report :=
  match ev with
  | Task_build None _ _ (Returned r) => [r]
  | AsyncResult_get _ _ (Returned r) => [r]
  | _ => []
  end.

Definition reports (evs : list Event) : list Report :=
  flat_map report_of evs.

(** The clients closed, one entry per call of [close()]. *)
Definition closed_of (ev : Event) : list Client :=
  match ev with
  | Client_close c => [c]
  | _ => []
  end.

Definition closed (evs : list Event) : list Client :=
  flat_map closed_of evs.

(** The pools created, closed and joined. *)
Definition pool_new_of (ev : Event) : list nat :=
  match ev with
  | Pool_new p _ => [p]
  | _ => []
  end.

Definition pool_closed_of (ev : Event) : list nat :=
  match ev with
  | Pool_close p => [p]
  | _ => []
  end.

Definition pool_joined_of (ev : Event) : list nat :=
  match ev with
  | Pool_join p => [p]
  | _ => []
  end.

Definition is_LoggerHandler_remove (ev : Event) : bool :=
  match ev with
  | LoggerHandler_remove => true
  | _ => false
  end.

Definition is_exec_status_set (ev : Event) : bool :=
  match ev with
  | exec_status_set _ _ _ => true
  | _ => false
  end.

(** The calls that only draw the progress bar. *)
Definition is_display (ev : Event) : bool :=
  match ev with
  | tqdm_new _ | tqdm_set_description _ => true
  | _ => false
  end.

Definition without_display (evs : list Event) : list Event :=
  filter (fun ev => negb (is_display ev)) evs.

(** One turn of the loop: the task, the status the gate of line 65 read,
    the loop's variables and the store before and after, and what the turn
    did. *)
Record Iteration : Type := mkIteration {
  it_task : Task;
  it_entry_status : TaskStatus;
  it_locals_before : Locals;
  it_store_before : Store;
  it_events : list Event;
  it_locals_after : Locals;
  it_store_after : Store
}.

(** The turns of [for t in tasks] from [l] and [s]: one per task, up to
    the end of [tasks] or to the turn that raises, which is the last (a
    write of Errored that raises; nothing was appended to the loop's
    variables in that turn). *)
Fixpoint iterations (self : Serial) (show_progress : bool)
    (task_kwargs : Kwargs) (tasks : list Task) (l : Locals) (s : Store)
  : list Iteration :=
  match tasks with
  | [] => []
  | t :: tasks' =>
      match loop_body self show_progress task_kwargs t l s with
      | (Returned l', s', evs) =>
          mkIteration t (exec_status t (world s)) l s evs l' s'
          :: iterations self show_progress task_kwargs tasks' l' s'
      | (Raised _, s', evs) =>
          [mkIteration t (exec_status t (world s)) l s evs l s']
      end
  end.

(** The turns of the loop in the run [__call__ self dag show_progress
    task_kwargs] started in store [s] (lines 48-62 do not touch the store).
    That the loop is these turns, one after the other, is [loop_spec]
    below; that the run is lines 48-62, the loop and, when the loop ends
    normally, lines 93-109 is [call_run]. *)
Definition run_iterations (self : Serial) (dag : DAG)
    (show_progress : bool) (task_kwargs : Kwargs) (s : Store)
  : list Iteration :=
  iterations self show_progress task_kwargs (values (dag_tasks dag))
    (mkLocals MessageCollector.new []) s.

(** What lines 48-62 put on the trace. *)
Definition start_events (self : Serial) (dag : DAG) (show_progress : bool)
  : list Event :=
  [Executor_call (dag_name dag)]
  ++ (if truthy (logging_directory self)
      then [LoggerHandler_add (dag_name dag)
              (directory_of (logging_directory self)) (logging_level self)]
      else [])
  ++ (if show_progress then [tqdm_new (len (dag_tasks dag))] else []).

Fixpoint final_locals (l : Locals) (its : list Iteration) : Locals :=
  match its with
  | [] => l
  | it :: its' => final_locals (it_locals_after it) its'
  end.

Fixpoint final_store (s : Store) (its : list Iteration) : Store :=
  match its with
  | [] => s
  | it :: its' => final_store (it_store_after it) its'
  end.

Definition events_of (its : list Iteration) : list Event :=
  flat_map it_events its.

(** The turns whose task the gate let through. *)
Definition admitted (its : list Iteration) : list Iteration :=
  filter (fun it => negb (in_Skipped_Aborted (it_entry_status it))) its.

(** *** One turn of the loop, case by case *)

(** The build of [t] goes to a subprocess (line 72). *)
Definition isolated (self : Serial) (t : Task) : bool :=
  source_value_callable t && _build_in_subprocess self.

Definition description_events (show_progress : bool) (t : Task)
  : list Event :=
  if show_progress
  then [tqdm_set_description (Building_task (name t))]
  else [].

(** What the [try] of lines 71-76 gets when the build ends with [done]. *)
Definition got (self : Serial) (t : Task) (done : Outcome Exception Report)
  : Outcome Exception Report :=
  if isolated self t then handed_over done else done.

(** The trace of lines 72-76 when the build ends with [done] and [p]
    pools were made before. *)
Definition build_events (self : Serial) (t : Task) (kwds : Kwargs)
    (p : nat) (done : Outcome Exception Report) : list Event :=
  if isolated self t
  then [Pool_new p 1; Pool_apply_async p t kwds;
        Task_build (Some p) t kwds done;
        AsyncResult_get p t (handed_over done)]
       ++ match handed_over done with
          | Returned _ => [Pool_close p; Pool_join p]
          | Raised _ => []
          end
  else [Task_build None t kwds done].

Definition pools_after (self : Serial) (t : Task) (p : nat) : nat :=
  if isolated self t then Datatypes.S p else p.

(** The ways through the body of the loop. *)
Inductive turn (self : Serial) (show_progress : bool) (task_kwargs : Kwargs)
    (t : Task) (l : Locals) (s : Store)
  : Outcome CallError Locals -> Store -> list Event -> Prop :=
| turn_continue :
    in_Skipped_Aborted (exec_status t (world s)) = true ->
    turn self show_progress task_kwargs t l s (Returned l) s []
| turn_except : forall done w1 e raised w2,
    in_Skipped_Aborted (exec_status t (world s)) = false ->
    build t task_kwargs (world s) = (done, w1) ->
    got self t done = Raised e ->
    set_exec_status t Errored w1 = (raised, w2) ->
    turn self show_progress task_kwargs t l s
      (match raised with
       | None =>
           Returned (mkLocals (exceptions l ++ [failure_record t e])
                              (task_reports l))
       | Some e' => Raised (Propagated e')
       end)
      (mkStore w2 (pools_after self t (pools s)))
      (description_events show_progress t
       ++ build_events self t task_kwargs (pools s) done
       ++ [exec_status_set t Errored raised])
| turn_else : forall done w1 report raised w2,
    in_Skipped_Aborted (exec_status t (world s)) = false ->
    build t task_kwargs (world s) = (done, w1) ->
    got self t done = Returned report ->
    set_exec_status t Executed w1 = (raised, w2) ->
    turn self show_progress task_kwargs t l s
      (Returned (mkLocals (exceptions l
                           ++ match raised with
                              | Some e => [failure_record t e]
                              | None => []
                              end)
                          (task_reports l ++ [report])))
      (mkStore w2 (pools_after self t (pools s)))
      (description_events show_progress t
       ++ build_events self t task_kwargs (pools s) done
       ++ [exec_status_set t Executed raised]).

(** *** The end of the run, case by case *)

Fixpoint close_all (cs : list Client) (w : World) : World :=
  match cs with
  | [] => w
  | c :: cs' => close_all cs' (close c w)
  end.

Definition cleanup_events (self : Serial) (dag : DAG) : list Event :=
  (if truthy (logging_directory self) then [LoggerHandler_remove] else [])
  ++ (if _build_in_subprocess self
      then []
      else map Client_close (values (dag_clients dag))).

Definition cleanup_store (self : Serial) (dag : DAG) (s : Store) : Store :=
  if _build_in_subprocess self
  then s
  else mkStore (close_all (values (dag_clients dag)) (world s)) (pools s).

(** ** More of the trace *)

(** The pools handed a call, and the pools the builds ran in. *)
Definition pool_applied_of (ev : Event) : list nat :=
  match ev with
  | Pool_apply_async p _ _ => [p]
  | _ => []
  end.

Definition worker_of (ev : Event) : list nat :=
  match ev with
  | Task_build (Some p) _ _ _ => [p]
  | _ => []
  end.

(** The pools whose [get] returned, and the pools whose [get] raised. *)
Definition returned_worker_of (ev : Event) : list nat :=
  match ev with
  | AsyncResult_get p _ (Returned _) => [p]
  | _ => []
  end.

Definition raised_worker_of (ev : Event) : list nat :=
  match ev with
  | AsyncResult_get p _ (Raised _) => [p]
  | _ => []
  end.

(** The tasks built and the tasks whose status was assigned (an event
    per call of the setter, whether it raised or not). *)
Definition built_of (ev : Event) : list Task :=
  match ev with
  | Task_build _ t _ _ => [t]
  | _ => []
  end.

Definition written_of (ev : Event) : list Task :=
  match ev with
  | exec_status_set t _ _ => [t]
  | _ => []
  end.

Definition is_LoggerHandler_add (ev : Event) : bool :=
  match ev with
  | LoggerHandler_add _ _ _ => true
  | _ => false
  end.

Definition is_Client_close (ev : Event) : bool :=
  match ev with
  | Client_close _ => true
  | _ => false
  end.

(** What the progress bar is given. *)
Definition described_of (ev : Event) : list string :=
  match ev with
  | tqdm_set_description text => [text]
  | _ => []
  end.

Definition tqdm_total_of (ev : Event) : list nat :=
  match ev with
  | tqdm_new total => [total]
  | _ => []
  end.

(** The tasks whose exception reached an [except] clause of the loop. *)
Definition failed_task_of (ev : Event) : list Task :=
  match ev with
  | Task_build None t _ (Raised _) => [t]
  | AsyncResult_get _ t (Raised _) => [t]
  | exec_status_set t Executed (Some _) => [t]
  | _ => []
  end.

(** The writes of [Errored] that raised. *)
Definition is_Errored_raise (ev : Event) : bool :=
  match ev with
  | exec_status_set _ Errored (Some _) => true
  | _ => false
  end.

(** The turns in which an exception reached an [except] clause of the
    loop. *)
Definition failed (it : Iteration) : bool :=
  match failures (it_events it) with
  | [] => false
  | _ :: _ => true
  end.

End Executor.

(** * Pickling the executor ([__getstate__], [__setstate__])

    The instance as Python keeps it: its [__dict__], a dict from attribute
    names to values, in insertion order and with one entry per key. *)

Module Pickling.

Inductive Value : Type :=
| PyNone
| PyStr (s : string)
| PyInt (n : nat)
| PyBool (b : bool)
| PyLogger (name : string).

Definition Dict : Type := list (string * Value).

Inductive KeyError : Type :=
| mkKeyError (key : string).

(** [d.get(k)] *)
Fixpoint getitem (d : Dict) (k : string) : option Value :=
  match d with
  | [] => None
  | (k', v) :: d' => if String.eqb k k' then Some v else getitem d' k
  end.

(** [d[k] = v]: a key already there keeps its place. *)
Fixpoint setitem (d : Dict) (k : string) (v : Value) : Dict :=
  match d with
  | [] => [(k, v)]
  | (k', v') :: d' =>
      if String.eqb k k' then (k, v) :: d' else (k', v') :: setitem d' k v
  end.

(** [del d[k]], a [KeyError] when the key is missing. *)
Definition delitem (d : Dict) (k : string) : Outcome KeyError Dict :=
  match getitem d k with
  | Some _ => Returned (filter (fun kv => negb (String.eqb k (fst kv))) d)
  | None => Raised (mkKeyError k)
  end.

(** [d.update(other)] *)
Definition update (d other : Dict) : Dict :=
  fold_left (fun acc kv => setitem acc (fst kv) (snd kv)) other d.

(** [d.copy()]: dicts are values here. *)
Definition copy (d : Dict) : Dict := d.

Definition keys (d : Dict) : list string := map fst d.

(** [__name__] of the module, and [logging.getLogger(name)]. *)
Definition __name__ : string := "ploomber.executors.Serial".

Definition getLogger (name : string) : Value := PyLogger name.

Definition of_directory (o : option string) : Value :=
  match o with
  | Some d => PyStr d
  | None => PyNone
  end.

(** [Serial.__init__] (lines 40-45) on the [__dict__] of the instance. *)
Definition __init__ (self : Dict) (logging_directory : option string)
    (logging_level : nat) (build_in_subprocess : bool) : Dict :=
  let self := setitem self "logging_directory" (of_directory logging_directory) in
  let self := setitem self "logging_level" (PyInt logging_level) in
  let self := setitem self "_logger" (getLogger __name__) in
  setitem self "_build_in_subprocess" (PyBool build_in_subprocess).

(** [Serial.__getstate__] (lines 111-116) *)
Definition __getstate__ (self : Dict) : Outcome KeyError Dict :=
  let state := copy self in
  delitem state "_logger".

(** [Serial.__setstate__] (lines 118-120) *)
Definition __setstate__ (self : Dict) (state : Dict) : Dict :=
  let self := update self state in
  setitem self "_logger" (getLogger __name__).

(** The options [__call__] reads, from the [__dict__]. *)
Definition options (self : Dict) : option Serial :=
  match getitem self "logging_directory", getitem self "logging_level",
        getitem self "_build_in_subprocess" with
  | Some PyNone, Some (PyInt n), Some (PyBool b) => Some (mkSerial None n b)
  | Some (PyStr d), Some (PyInt n), Some (PyBool b) =>
      Some (mkSerial (Some d) n b)
  | _, _, _ => None
  end.

(** The [__dict__] of the instance [Serial(...)] with the options of
    [self]. *)
Definition instance (self : Serial) : Dict :=
  __init__ [] (logging_directory self) (logging_level self)
    (_build_in_subprocess self).

End Pickling.

(** * A concrete DAG

    Tasks with fixed behaviour over a world that keeps the status writes
    and the clients closed so far; used to run the executor on examples. *)

Module Example.

Record ETask : Type := mkETask {
  et_name : string;
  et_callable : bool;
  et_build : Outcome Exception string;
  et_on_finish : option Exception;
  et_on_failure : option Exception
}.

Record EWorld : Type := mkEWorld {
  statuses : list (string * TaskStatus);
  closed_clients : list nat
}.

Fixpoint lookup (k : string) (m : list (string * TaskStatus)) : TaskStatus :=
  match m with
  | [] => Waiting
  | (k', v) :: m' => if String.eqb k k' then v else lookup k m'
  end.

Definition EKwargs : Type := list (string * string).

#[export] Instance collab : @Collaborators EWorld ETask EKwargs string nat := {
  name := et_name;
  repr := fun t => ("Task(" ++ et_name t ++ ")")%string;
  source_value_callable := et_callable;
  exec_status := fun t w => lookup (et_name t) (statuses w);
  set_exec_status := fun t v w =>
    (match v with
     | Executed => et_on_finish t
     | Errored => et_on_failure t
     | _ => None
     end,
     mkEWorld ((et_name t, v) :: statuses w) (closed_clients w));
  build := fun t _ w => (et_build t, w);
  unpicklable := fun r =>
    if String.eqb r "report with a lock"
    then Some (mkException "MaybeEncodingError: cannot pickle")
    else None;
  reraised := fun e => mkException ("RemoteTraceback: " ++ traceback_text e);
  close := fun c w => mkEWorld (statuses w) (c :: closed_clients w)
}.

Definition boom (text : string) : Exception := mkException text.

(** Builds and reports. *)
Definition load : ETask :=
  mkETask "load" true (Returned "report load"%string) None None.

(** Its build raises. *)
Definition clean : ETask :=
  mkETask "clean" true (Raised (boom "ValueError: clean")) None None.

(** Builds, then its status cannot be set to [Executed]. *)
Definition plot : ETask :=
  mkETask "plot" false (Returned "report plot"%string)
    (Some (boom "RuntimeError: on_finish")) None.

(** A script, built in the executor's process. *)
Definition dump : ETask :=
  mkETask "dump" false (Returned "report dump"%string) None None.

(** A script whose build raises. *)
Definition upload : ETask :=
  mkETask "upload" false (Raised (boom "OSError: upload")) None None.

(** Its build raises, and so does the write of [Errored] (a hook run by
    the setter). *)
Definition hooked : ETask :=
  mkETask "hooked" false (Raised (boom "ValueError: hooked")) None
    (Some (boom "RuntimeError: on_failure")).

(** A callable whose report cannot be sent back from a worker. *)
Definition fit : ETask :=
  mkETask "fit" true (Returned "report with a lock"%string) None None.

Definition named (ts : list ETask) : list (string * ETask) :=
  map (fun t => (et_name t, t)) ts.

Definition kwargs : EKwargs := [("force", "True")]%string.

Definition store0 (st : list (string * TaskStatus)) : @Store EWorld :=
  mkStore (mkEWorld st []) 0.

(** One client object registered under two names. *)
Definition shared_clients : list (string * nat) :=
  [("SQLScript", 7); ("PostgresRelation", 7)]%string.

Definition in_process : Serial := mkSerial None logging_INFO false.

Definition logged : Serial :=
  mkSerial (Some "logs"%string) logging_INFO true.

Definition dag_ok : @DAG ETask nat :=
  mkDAG "ok" (named [load; dump]) shared_clients.

Definition dag_mixed : @DAG ETask nat :=
  mkDAG "mixed" (named [load; clean; dump; plot; upload])
    [("db", 1); ("files", 2)]%string.


Definition dump_aborted : @Store EWorld := store0 [("dump", Aborted)]%string.

Definition dag_plot : @DAG ETask nat :=
  mkDAG "plot" (named [plot; dump]) [].

Definition dag_clean : @DAG ETask nat :=
  mkDAG "clean" (named [clean]) [].


Definition dag_hooked : @DAG ETask nat :=
  mkDAG "hooked" (named [hooked; dump]) [].

Definition dag_fit : @DAG ETask nat :=
  mkDAG "fit" (named [fit]) [].


(** Nothing left to build: the only task was aborted before the run. *)
Definition dag_stopped : @DAG ETask nat :=
  mkDAG "stopped" (named [dump]) [("db", 1)]%string.


Definition first_turn (its : list (@Iteration EWorld ETask EKwargs string nat))
    (s : @Store EWorld) : @Iteration EWorld ETask EKwargs string nat :=
  match its with
  | it :: _ => it
  | [] => mkIteration dump Waiting (mkLocals MessageCollector.new []) s []
            (mkLocals MessageCollector.new []) s
  end.


Definition plot_turn : @Iteration EWorld ETask EKwargs string nat :=
  first_turn (run_iterations in_process dag_plot false kwargs (store0 []))
    (store0 []).


End Example.

(** Unfolds the Python of the embedding down to the calls on the
    collaborators. *)
Ltac py_unfold :=
  cbv beta iota delta
    [loop_body when try_except_else execute_in_subprocess get run_build
     assign_exec_status unhandled get_exec_status client_close Pool
     apply_async bind emit ret raise description_events build_events
     pools_after isolated got].

(** * Properties *)

Section ExecutorFacts.

Context {World Task Kwargs Report Client : Type}.
Context {collab : @Collaborators World Task Kwargs Report Client}.

Local Abbreviation Event := (@Event Task Kwargs Report Client).
Local Abbreviation Store := (@Store World).
Local Abbreviation Locals := (@Locals Report).
Local Abbreviation Iteration := (@Iteration World Task Kwargs Report Client).
Local Abbreviation DAG := (@DAG Task Client).

Implicit Types (self : Serial) (dag : DAG) (t : Task) (kw : Kwargs)
  (l : Locals) (s : Store) (sp : bool) (evs : list Event)
  (it : Iteration) (its : list Iteration).

(** ** The monad *)

Lemma for_each_app {E A L : Type} (xs ys : list A)
    (f : A -> L -> M Store Event E L) (l0 : L) s :
  for_each (xs ++ ys) f l0 s
  = bind (for_each xs f l0) (for_each ys f) s.
Proof.
  revert l0 s; induction xs as [|x xs IH]; intros l0 s; simpl.
  - unfold bind, ret; simpl. now destruct (for_each ys f l0 s) as [[r s'] ev].
  - unfold bind. destruct (f x l0 s) as [[[l1|e] s1] ev1]; [|reflexivity].
    rewrite IH. unfold bind.
    destruct (for_each xs f l1 s1) as [[[l2|e] s2] ev2]; [|reflexivity].
    destruct (for_each ys f l2 s2) as [[r s3] ev3].
    now rewrite app_assoc.
Qed.

(** ** One turn *)

Lemma got_Returned self t done report :
  got self t done = Returned report -> done = Returned report.
Proof.
  unfold got, handed_over. destruct (isolated self t); [|auto].
  destruct done as [r|e]; [|discriminate].
  destruct (unpicklable r); [discriminate | auto].
Qed.

Lemma loop_body_turn self sp kw t l s :
  exists r s' evs,
    loop_body self sp kw t l s = (r, s', evs)
    /\ turn self sp kw t l s r s' evs.
Proof.
  destruct (in_Skipped_Aborted (exec_status t (world s))) eqn:Hgate.
  - exists (Returned l), s, []. split; [|now constructor].
    py_unfold. now rewrite Hgate.
  - destruct (build t kw (world s)) as [done w1] eqn:Hbuild.
    destruct (got self t done) as [report|e] eqn:Hgot.
    + destruct (set_exec_status t Executed w1) as [raised w2] eqn:Hset.
      do 3 eexists. split; [|eapply turn_else; eassumption].
      revert Hgot. py_unfold. rewrite Hgate.
      destruct sp, (source_value_callable t), (_build_in_subprocess self);
        simpl; rewrite Hbuild; unfold handed_over;
        try (destruct done as [r|e0]; [destruct (unpicklable r)|]);
        simpl; intros Hgot; try discriminate;
        try (injection Hgot as ->); simpl; rewrite Hset;
        destruct raised; simpl; rewrite ?app_nil_r; reflexivity.
    + destruct (set_exec_status t Errored w1) as [raised w2] eqn:Hset.
      do 3 eexists. split; [|eapply turn_except; eassumption].
      revert Hgot. py_unfold. rewrite Hgate.
      destruct sp, (source_value_callable t), (_build_in_subprocess self);
        simpl; rewrite Hbuild; unfold handed_over;
        try (destruct done as [r|e0]; [destruct (unpicklable r)|]);
        simpl; intros Hgot; try discriminate;
        try (injection Hgot as ->); simpl; rewrite Hset;
        destruct raised; reflexivity.
Qed.

Lemma build_events_collect self t kw p done :
  failures (build_events self t kw p done)
  = match got self t done with
    | Raised e => [failure_record t e]
    | Returned _ => []
    end
  /\ reports (build_events self t kw p done)
     = match got self t done with
       | Returned r => [r]
       | Raised _ => []
       end.
Proof.
  unfold build_events, got, handed_over, failures, reports.
  destruct (isolated self t); [|now destruct done].
  destruct done as [r|e]; [destruct (unpicklable r)|]; now split.
Qed.

Lemma failures_app evs evs' :
  failures (evs ++ evs') = failures evs ++ failures evs'.
Proof. apply flat_map_app. Qed.

Lemma reports_app evs evs' :
  reports (evs ++ evs') = reports evs ++ reports evs'.
Proof. apply flat_map_app. Qed.

Lemma closed_app evs evs' :
  closed (evs ++ evs') = closed evs ++ closed evs'.
Proof. apply flat_map_app. Qed.

Lemma description_events_collect sp t :
  failures (description_events sp t : list Event) = []
  /\ reports (description_events sp t : list Event) = [].
Proof. unfold description_events. now destruct sp. Qed.

(** What a turn leaves in the two lists, read off its events: when it ends
    normally, what it appended; when the write of Errored raises, the
    exception of the build was caught and nothing was appended. *)
Lemma turn_collects self sp kw t l s r s' evs :
  turn self sp kw t l s r s' evs ->
  match r with
  | Returned l' =>
      exceptions l' = exceptions l ++ failures evs
      /\ task_reports l' = task_reports l ++ reports evs
      /\ filter is_Errored_raise evs = []
  | Raised ce =>
      exists e t',
        ce = Propagated e /\ In (exec_status_set t' Errored (Some e)) evs
        /\ failures evs <> []
  end.
Proof.
  intros H;
    destruct H as [Hg | done w1 e raised w2 Hg Hb Hgot Hs
                  | done w1 report raised w2 Hg Hb Hgot Hs].
  - simpl. now rewrite !app_nil_r.
  - destruct (build_events_collect self t kw (pools s) done) as [Hf Hr].
    destruct (description_events_collect sp t) as [Hdf Hdr].
    rewrite Hgot in Hf, Hr.
    assert (Hq : filter is_Errored_raise
                   (description_events sp t
                    ++ build_events self t kw (pools s) done) = []).
    { unfold description_events, build_events.
      destruct sp, (isolated self t), (handed_over done); reflexivity. }
    destruct raised as [e'|].
    + exists e', t. split; [reflexivity|]. split.
      * rewrite !in_app_iff. right; right. now left.
      * rewrite !failures_app, Hdf, Hf. discriminate.
    + rewrite !failures_app, !reports_app, Hdf, Hdr, Hf, Hr.
      simpl. rewrite app_nil_r. repeat split.
      rewrite app_assoc, filter_app, Hq. reflexivity.
  - destruct (build_events_collect self t kw (pools s) done) as [Hf Hr].
    destruct (description_events_collect sp t) as [Hdf Hdr].
    rewrite Hgot in Hf, Hr.
    assert (Hq : filter is_Errored_raise
                   (description_events sp t
                    ++ build_events self t kw (pools s) done) = []).
    { unfold description_events, build_events.
      destruct sp, (isolated self t), (handed_over done); reflexivity. }
    rewrite !failures_app, !reports_app, Hdf, Hdr, Hf, Hr.
    simpl. repeat split.
    + now destruct raised.
    + rewrite app_assoc, filter_app, Hq. now destruct raised.
Qed.

(** ** The loop as a sequence of turns *)

Lemma iterations_turn self sp kw tasks l s it :
  In it (iterations self sp kw tasks l s) ->
  it_entry_status it = exec_status (it_task it) (world (it_store_before it))
  /\ exists r,
       loop_body self sp kw (it_task it) (it_locals_before it)
         (it_store_before it)
       = (r, it_store_after it, it_events it)
       /\ turn self sp kw (it_task it) (it_locals_before it)
            (it_store_before it) r (it_store_after it) (it_events it)
       /\ it_locals_after it
          = match r with
            | Returned l' => l'
            | Raised _ => it_locals_before it
            end.
Proof.
  revert l s; induction tasks as [|t tasks IH]; intros l s; simpl.
  - intros [].
  - destruct (loop_body_turn self sp kw t l s) as (r & s' & evs & Hb & Ht).
    rewrite Hb. destruct r as [l'|ce].
    + intros [<- | Hin]; [|now apply IH in Hin].
      split; [reflexivity|]. exists (Returned l'). now repeat split.
    + intros [<- | []].
      split; [reflexivity|]. exists (Raised ce). now repeat split.
Qed.

Lemma iterations_prefix self sp kw tasks l s :
  exists rest, tasks = map it_task (iterations self sp kw tasks l s) ++ rest.
Proof.
  revert l s; induction tasks as [|t tasks IH]; intros l s; simpl.
  - now exists [].
  - destruct (loop_body self sp kw t l s) as [[[l'|ce] s'] evs]; simpl.
    + destruct (IH l' s') as [rest Hrest]. exists rest. now rewrite <- Hrest.
    + now exists tasks.
Qed.

Lemma in_events_of its ev :
  In ev (events_of its) <-> exists it, In it its /\ In ev (it_events it).
Proof. unfold events_of. apply in_flat_map. Qed.

(** The loop is its turns, one after the other, up to the end of the tasks
    or to a write of Errored that raises. *)
Lemma loop_spec self sp kw tasks l s :
  let its := iterations self sp kw tasks l s in
  exists r,
    loop self sp kw tasks l s = (r, final_store s its, events_of its)
    /\ match r with
       | Returned lf =>
           lf = final_locals l its
           /\ map it_task its = tasks
           /\ exceptions lf = exceptions l ++ failures (events_of its)
           /\ task_reports lf = task_reports l ++ reports (events_of its)
           /\ filter is_Errored_raise (events_of its) = []
       | Raised ce =>
           exists e t,
             ce = Propagated e
             /\ In (exec_status_set t Errored (Some e)) (events_of its)
             /\ failures (events_of its) <> []
       end.
Proof.
  unfold loop. revert l s; induction tasks as [|t tasks IH]; intros l s; simpl.
  - exists (Returned l). split; [reflexivity|].
    now rewrite !app_nil_r.
  - unfold bind.
    destruct (loop_body_turn self sp kw t l s) as (r1 & s1 & evs1 & Hb & Ht).
    rewrite Hb. apply turn_collects in Ht. destruct r1 as [l1|ce]; simpl.
    + destruct Ht as (He1 & Hr1 & Hq1).
      destruct (IH l1 s1) as (r & Hloop & Hr). simpl in Hloop. rewrite Hloop.
      exists r. split; [reflexivity|].
      unfold events_of in *; simpl. destruct r as [lf|ce].
      * destruct Hr as (-> & Htasks & He & Hrep & Hq).
        rewrite Htasks, failures_app, reports_app, filter_app, Hq, Hq1.
        rewrite He, Hrep, He1, Hr1, !app_assoc. now repeat split.
      * destruct Hr as (e & t' & -> & Hin & Hne). exists e, t'.
        split; [reflexivity|]. split; [rewrite in_app_iff; now right|].
        rewrite failures_app. intros H. now apply app_eq_nil in H as [_ H].
    + destruct Ht as (e & t' & -> & Hin & Hne).
      exists (Raised (Propagated e)). unfold events_of; simpl.
      rewrite app_nil_r. split; [reflexivity|]. eauto.
Qed.

Lemma Errored_raise_event evs t e :
  In (exec_status_set t Errored (Some e) : Event) evs ->
  filter is_Errored_raise evs <> [].
Proof.
  intros Hin Hnil.
  assert (H : In (exec_status_set t Errored (Some e) : Event)
                (filter is_Errored_raise evs))
    by (apply filter_In; now split).
  rewrite Hnil in H. destruct H.
Qed.

(** ** The end of the run *)

Lemma close_clients (cs : list Client) s :
  for_each (E := CallError) cs (fun client _ => client_close client) tt s
  = (Returned tt, mkStore (close_all cs (world s)) (pools s),
     map (@Client_close Task Kwargs Report Client) cs).
Proof.
  revert s; induction cs as [|c cs IH]; intros s; simpl.
  - now destruct s.
  - unfold bind, client_close at 1. now rewrite IH.
Qed.

Lemma finish_raises self dag l s :
  MessageCollector.bool (exceptions l) = true ->
  finish self dag l s
  = (Raised (DAGBuildError
               (DAGBuildError_header
                ++ MessageCollector.str (exceptions l))%string), s, []).
Proof. intros H. unfold finish. now rewrite H. Qed.

Lemma finish_returns self dag l s :
  MessageCollector.bool (exceptions l) = false ->
  finish self dag l s
  = (Returned (task_reports l), cleanup_store self dag s,
     cleanup_events self dag).
Proof.
  intros H. unfold finish, cleanup_store, cleanup_events. rewrite H.
  unfold bind, when.
  destruct (truthy (logging_directory self)), (_build_in_subprocess self);
    simpl; rewrite ?close_clients; simpl; rewrite ?app_nil_r;
    try reflexivity; now destruct s.
Qed.

(** [__call__] is lines 48-62, the loop, and lines 93-109 when the loop
    ends normally. *)
Lemma call_run self dag sp kw s :
  __call__ self dag sp kw s
  = match loop self sp kw (values (dag_tasks dag))
            (mkLocals MessageCollector.new []) s with
    | (Returned l, s1, evs) =>
        match finish self dag l s1 with
        | (r, s2, evs') => (r, s2, start_events self dag sp ++ evs ++ evs')
        end
    | (Raised ce, s1, evs) => (Raised ce, s1, start_events self dag sp ++ evs)
    end.
Proof.
  unfold __call__, start_events, bind, ret, when, emit.
  destruct (truthy (logging_directory self)), sp; simpl;
    destruct (loop self _ kw (values (dag_tasks dag))
                (mkLocals MessageCollector.new []) s) as [[[l|ce] s1] evs];
    try reflexivity;
    destruct (finish self dag l s1) as [[r s2] evs']; reflexivity.
Qed.

Lemma bool_collector (mc : MessageCollector.t) :
  MessageCollector.bool mc = true <-> mc <> [].
Proof. destruct mc; simpl; intuition congruence. Qed.

(** The three ways a run ends. *)
Lemma call_cases self dag sp kw s :
  let its := run_iterations self dag sp kw s in
  let mc := failures (events_of its) in
  (exists e t,
     In (exec_status_set t Errored (Some e)) (events_of its)
     /\ failures (events_of its) <> []
     /\ __call__ self dag sp kw s
        = (Raised (Propagated e), final_store s its,
           start_events self dag sp ++ events_of its))
  \/ (filter is_Errored_raise (events_of its) = []
      /\ map it_task its = values (dag_tasks dag)
      /\ exceptions (final_locals (mkLocals MessageCollector.new []) its) = mc
      /\ ((mc <> []
           /\ __call__ self dag sp kw s
              = (Raised (DAGBuildError
                           (DAGBuildError_header
                            ++ MessageCollector.str mc)%string),
                 final_store s its,
                 start_events self dag sp ++ events_of its ++ []))
          \/ (mc = []
              /\ __call__ self dag sp kw s
                 = (Returned (reports (events_of its)),
                    cleanup_store self dag (final_store s its),
                    start_events self dag sp ++ events_of its
                    ++ cleanup_events self dag)))).
Proof.
  intros its mc. rewrite call_run.
  destruct (loop_spec self sp kw (values (dag_tasks dag))
              (mkLocals MessageCollector.new []) s) as (r & Hloop & Hr).
  fold (run_iterations self dag sp kw s) in Hloop, Hr. fold its in Hloop, Hr.
  rewrite Hloop. destruct r as [lf|ce].
  - right. destruct Hr as (-> & Htasks & He & Hrep & Hq).
    simpl in He, Hrep. fold mc in He.
    split; [assumption|]. split; [assumption|]. split; [assumption|].
    destruct (MessageCollector.bool mc) eqn:Hb.
    + left. split; [now apply bool_collector|].
      rewrite finish_raises by now rewrite He. now rewrite He.
    + right. split.
      { destruct mc; [reflexivity | discriminate]. }
      rewrite finish_returns by now rewrite He. now rewrite Hrep.
  - left. destruct Hr as (e & t & -> & Hin & Hne). eauto.
Qed.

Lemma in_start_events self dag sp (ev : Event) :
  In ev (start_events self dag sp) ->
  ev = Executor_call (dag_name dag)
  \/ ev = LoggerHandler_add (dag_name dag)
            (directory_of (logging_directory self)) (logging_level self)
  \/ ev = tqdm_new (len (dag_tasks dag)).
Proof.
  unfold start_events.
  destruct (truthy (logging_directory self)), sp; simpl; intuition.
Qed.

Lemma in_cleanup_events self dag (ev : Event) :
  In ev (cleanup_events self dag) ->
  ev = LoggerHandler_remove \/ exists c, ev = Client_close c.
Proof.
  unfold cleanup_events. rewrite in_app_iff. intros [H | H].
  - destruct (truthy (logging_directory self)); simpl in H; intuition.
  - destruct (_build_in_subprocess self); simpl in H; [destruct H|].
    apply in_map_iff in H as (c & <- & _). eauto.
Qed.

(** A run is lines 48-62, the turns of the loop, and, when it returns,
    the cleanup of lines 100-107. *)
Lemma call_shape self dag sp kw s :
  let its := run_iterations self dag sp kw s in
  let run := __call__ self dag sp kw s in
  (exists ce, result_of run = Raised ce
              /\ store_of run = final_store s its
              /\ trace_of run = start_events self dag sp ++ events_of its)
  \/ (result_of run = Returned (reports (events_of its))
      /\ store_of run = cleanup_store self dag (final_store s its)
      /\ trace_of run
         = start_events self dag sp ++ events_of its
           ++ cleanup_events self dag).
Proof.
  intros its run.
  destruct (call_cases self dag sp kw s)
    as [(e & t & _ & _ & Hcall)
       | (_ & _ & _ & [[_ Hcall] | [_ Hcall]])];
    fold its in Hcall; subst run; rewrite Hcall;
    unfold result_of, store_of, trace_of; cbn [fst snd].
  - left. eexists. now repeat split.
  - left. eexists. rewrite app_nil_r. now repeat split.
  - right. now repeat split.
Qed.

Lemma flat_map_nil_forall {A B : Type} (f : A -> list B) (xs : list A) :
  (forall x, In x xs -> f x = []) -> flat_map f xs = [].
Proof.
  induction xs as [|x xs IH]; simpl; intros H; [reflexivity|].
  rewrite (H x), IH; auto.
Qed.

Lemma filter_nil_forall {A : Type} (f : A -> bool) (xs : list A) :
  (forall x, In x xs -> f x = false) -> filter f xs = [].
Proof.
  induction xs as [|x xs IH]; simpl; intros H; [reflexivity|].
  rewrite (H x), IH; auto.
Qed.

(** What is read off the events of the loop only. *)
Lemma flat_map_call {B : Type} (f : Event -> list B) self dag sp kw s :
  (forall ev, In ev (start_events self dag sp) -> f ev = []) ->
  (forall ev, In ev (cleanup_events self dag) -> f ev = []) ->
  flat_map f (trace_of (__call__ self dag sp kw s))
  = flat_map f (events_of (run_iterations self dag sp kw s)).
Proof.
  intros Hs Hc.
  destruct (call_shape self dag sp kw s) as [(m & _ & _ & ->) | (_ & _ & ->)];
    rewrite !flat_map_app, (flat_map_nil_forall _ _ Hs);
    rewrite ?(flat_map_nil_forall _ _ Hc), ?app_nil_r; reflexivity.
Qed.

Lemma call_trace self dag sp kw s :
  let its := run_iterations self dag sp kw s in
  let evs := trace_of (__call__ self dag sp kw s) in
  failures evs = failures (events_of its)
  /\ reports evs = reports (events_of its)
  /\ forall ev, In ev evs ->
       In ev (events_of its)
       \/ (is_exec_status_set ev = false
           /\ forall worker t k r, ev <> Task_build worker t k r).
Proof.
  intros its evs. split; [|split].
  - apply flat_map_call; intros ev H.
    + now apply in_start_events in H as [-> | [-> | ->]].
    + now apply in_cleanup_events in H as [-> | [c ->]].
  - apply flat_map_call; intros ev H.
    + now apply in_start_events in H as [-> | [-> | ->]].
    + now apply in_cleanup_events in H as [-> | [c ->]].
  - intros ev. subst evs.
    destruct (call_shape self dag sp kw s) as [(m & _ & _ & ->) | (_ & _ & ->)];
      fold its; rewrite !in_app_iff; intros H.
    + destruct H as [H | H]; [|now left]. right.
      apply in_start_events in H as [-> | [-> | ->]]; split;
        try reflexivity; discriminate.
    + destruct H as [H | [H | H]]; [|now left|]; right.
      * apply in_start_events in H as [-> | [-> | ->]]; split;
          try reflexivity; discriminate.
      * apply in_cleanup_events in H as [-> | [c ->]]; split;
          try reflexivity; discriminate.
Qed.

Lemma run_turn self dag sp kw s it :
  In it (run_iterations self dag sp kw s) ->
  it_entry_status it = exec_status (it_task it) (world (it_store_before it))
  /\ exists r,
       turn self sp kw (it_task it) (it_locals_before it) (it_store_before it)
         r (it_store_after it) (it_events it)
       /\ it_locals_after it
          = match r with
            | Returned l' => l'
            | Raised _ => it_locals_before it
            end.
Proof.
  intros H. apply iterations_turn in H as (? & r & _ & ? & ?). eauto.
Qed.

(** ** What a turn leaves on the trace *)

Lemma gate_cases (x : TaskStatus) :
  in_Skipped_Aborted x = true <-> x = Skipped \/ x = Aborted.
Proof. destruct x; simpl; intuition discriminate. Qed.

Lemma gate_open (x : TaskStatus) :
  in_Skipped_Aborted x = false <-> x <> Skipped /\ x <> Aborted.
Proof. destruct x; simpl; intuition congruence. Qed.

Lemma in_build_events self t kw p done ev :
  In ev (build_events self t kw p done) ->
  ev = Task_build (if isolated self t then Some p else None) t kw done
  \/ (isolated self t = true
      /\ (ev = Pool_new p 1 \/ ev = Pool_apply_async p t kw
          \/ ev = AsyncResult_get p t (handed_over done)
          \/ (ev = Pool_close p \/ ev = Pool_join p)
             /\ exists r, handed_over done = Returned r)).
Proof.
  unfold build_events. destruct (isolated self t); simpl.
  - destruct (handed_over done); simpl; intuition eauto.
  - intuition.
Qed.

Lemma in_description_events sp t ev :
  In ev (description_events sp t) ->
  ev = tqdm_set_description (Building_task (name t)).
Proof.
  unfold description_events. destruct sp; simpl; [|tauto].
  now intros [<- | []].
Qed.

(** The calls of a turn: on the progress bar, on a pool made in the turn,
    and on the task of the turn, with the keyword arguments of the run. *)
Lemma in_turn self sp kw t l s r s' evs (ev : Event) :
  turn self sp kw t l s r s' evs ->
  In ev evs ->
  in_Skipped_Aborted (exec_status t (world s)) = false
  /\ (ev = tqdm_set_description (Building_task (name t))
      \/ (isolated self t = true
          /\ (ev = Pool_new (pools s) 1
              \/ ev = Pool_apply_async (pools s) t kw
              \/ (exists result, ev = AsyncResult_get (pools s) t result)
              \/ ev = Pool_close (pools s)
              \/ ev = Pool_join (pools s)))
      \/ (exists result,
            ev = Task_build (if isolated self t then Some (pools s) else None)
                   t kw result)
      \/ (exists v raised, ev = exec_status_set t v raised)).
Proof.
  intros H Hin;
    destruct H as [Hg | done w1 e raised w2 Hg Hb Hgot Hs
                  | done w1 report raised w2 Hg Hb Hgot Hs].
  - destruct Hin.
  - split; [assumption|].
    rewrite !in_app_iff in Hin. destruct Hin as [Hi | [Hi | [<- | []]]].
    + left. now apply in_description_events in Hi.
    + apply in_build_events in Hi
        as [-> | (Hiso & [-> | [-> | [-> | ([-> | ->] & _)]]])]; eauto 10.
    + eauto 10.
  - split; [assumption|].
    rewrite !in_app_iff in Hin. destruct Hin as [Hi | [Hi | [<- | []]]].
    + left. now apply in_description_events in Hi.
    + apply in_build_events in Hi
        as [-> | (Hiso & [-> | [-> | [-> | ([-> | ->] & _)]]])]; eauto 10.
    + eauto 10.
Qed.

Lemma in_loop_events self dag sp kw s (ev : Event) :
  In ev (events_of (run_iterations self dag sp kw s)) ->
  exists it t,
    In it (run_iterations self dag sp kw s)
    /\ In ev (it_events it)
    /\ t = it_task it
    /\ In t (values (dag_tasks dag))
    /\ in_Skipped_Aborted (it_entry_status it) = false
    /\ (ev = tqdm_set_description (Building_task (name t))
        \/ (isolated self t = true
            /\ (ev = Pool_new (pools (it_store_before it)) 1
                \/ ev = Pool_apply_async (pools (it_store_before it)) t kw
                \/ (exists result,
                      ev = AsyncResult_get (pools (it_store_before it)) t
                             result)
                \/ ev = Pool_close (pools (it_store_before it))
                \/ ev = Pool_join (pools (it_store_before it))))
        \/ (exists result,
              ev = Task_build (if isolated self t
                               then Some (pools (it_store_before it))
                               else None) t kw result)
        \/ (exists v raised, ev = exec_status_set t v raised)).
Proof.
  intros Hin. apply in_events_of in Hin as (it & Hit & Hin).
  exists it, (it_task it). split; [assumption|]. split; [assumption|].
  split; [reflexivity|]. split.
  - destruct (iterations_prefix self sp kw (values (dag_tasks dag))
                (mkLocals MessageCollector.new []) s) as [rest Hrest].
    fold (run_iterations self dag sp kw s) in Hrest.
    rewrite Hrest, in_app_iff. left. now apply in_map.
  - apply run_turn in Hit as (He & r & Ht & _). rewrite He.
    eapply in_turn; eassumption.
Qed.

Lemma loop_events_kinds self dag sp kw s (ev : Event) :
  In ev (events_of (run_iterations self dag sp kw s)) ->
  is_LoggerHandler_add ev = false
  /\ is_LoggerHandler_remove ev = false
  /\ is_Client_close ev = false
  /\ closed_of ev = []
  /\ tqdm_total_of ev = [].
Proof.
  intros H. apply in_loop_events in H
    as (it & t & _ & _ & _ & _ & _
        & [-> | [(_ & [-> | [-> | [[? ->] | [-> | ->]]]])
                | [[? ->] | (? & ? & ->)]]]);
    now repeat split.
Qed.

Lemma closed_cleanup_events self dag :
  closed (cleanup_events self dag : list Event)
  = if _build_in_subprocess self then [] else values (dag_clients dag).
Proof.
  unfold cleanup_events.
  assert (Hc : forall cs : list Client,
             closed (map (@Client_close Task Kwargs Report Client) cs) = cs).
  { induction cs as [|c cs IH]; [reflexivity|].
    unfold closed in *. simpl. now rewrite IH. }
  destruct (truthy (logging_directory self)), (_build_in_subprocess self);
    simpl; try reflexivity; apply Hc.
Qed.

Lemma removed_cleanup_events self dag :
  filter is_LoggerHandler_remove (cleanup_events self dag : list Event)
  = if truthy (logging_directory self) then [LoggerHandler_remove] else [].
Proof.
  unfold cleanup_events. rewrite filter_app.
  replace (filter is_LoggerHandler_remove
             (if _build_in_subprocess self
              then []
              else map (@Client_close Task Kwargs Report Client)
                     (values (dag_clients dag))))
    with (@nil Event).
  - rewrite app_nil_r. now destruct (truthy (logging_directory self)).
  - symmetry. destruct (_build_in_subprocess self); [reflexivity|].
    apply filter_nil_forall.
    intros ev Hin. now apply in_map_iff in Hin as (c & <- & _).
Qed.

(** ** The rendered failures *)

Lemma string_app_assoc (a b c : string) :
  ((a ++ b) ++ c)%string = (a ++ b ++ c)%string.
Proof. induction a as [|x a IH]; simpl; [reflexivity | now rewrite IH]. Qed.

Lemma str_app (mc mc' : MessageCollector.t) :
  MessageCollector.str (mc ++ mc')
  = (MessageCollector.str mc ++ MessageCollector.str mc')%string.
Proof.
  induction mc as [|m mc IH]; simpl; [reflexivity|].
  now rewrite IH, string_app_assoc.
Qed.

(** ** Two runs side by side *)

(** The progress bar: with it on, a turn does the same and draws. *)
Lemma turn_progress self kw t l s r1 r2 s1 s2 evs1 evs2 :
  turn self true kw t l s r1 s1 evs1 ->
  turn self false kw t l s r2 s2 evs2 ->
  r1 = r2 /\ s1 = s2 /\ without_display evs1 = evs2.
Proof.
  intros H1 H2.
  destruct H1 as [Hg1 | d1 w1 e1 raised1 w1' Hg1 Hb1 Hgot1 Hs1
                 | d1 w1 r1 raised1 w1' Hg1 Hb1 Hgot1 Hs1];
    destruct H2 as [Hg2 | d2 w2 e2 raised2 w2' Hg2 Hb2 Hgot2 Hs2
                   | d2 w2 r2 raised2 w2' Hg2 Hb2 Hgot2 Hs2];
    try congruence.
  - now repeat split.
  - rewrite Hb1 in Hb2. injection Hb2 as <- <-.
    rewrite Hgot1 in Hgot2. injection Hgot2 as <-.
    rewrite Hs1 in Hs2. injection Hs2 as <- <-.
    repeat split. unfold without_display, description_events, build_events.
    destruct (isolated self t), (handed_over d1); reflexivity.
  - rewrite Hb1 in Hb2. injection Hb2 as <- <-.
    rewrite Hgot1 in Hgot2. injection Hgot2 as <-.
    rewrite Hs1 in Hs2. injection Hs2 as <- <-.
    repeat split. unfold without_display, description_events, build_events.
    destruct (isolated self t), (handed_over d1); reflexivity.
Qed.

Lemma without_display_app evs evs' :
  without_display (evs ++ evs') = without_display evs ++ without_display evs'.
Proof. apply filter_app. Qed.

Lemma loop_progress self kw tasks l s :
  result_of (loop self true kw tasks l s)
  = result_of (loop self false kw tasks l s)
  /\ store_of (loop self true kw tasks l s)
     = store_of (loop self false kw tasks l s)
  /\ without_display (trace_of (loop self true kw tasks l s))
     = trace_of (loop self false kw tasks l s).
Proof.
  unfold loop, result_of, store_of, trace_of.
  revert l s; induction tasks as [|t tasks IH]; intros l s; simpl.
  - now repeat split.
  - unfold bind.
    destruct (loop_body_turn self true kw t l s)
      as (r1 & s1 & evs1 & -> & Ht1).
    destruct (loop_body_turn self false kw t l s)
      as (r2 & s2 & evs2 & -> & Ht2).
    destruct (turn_progress Ht1 Ht2) as (<- & <- & <-).
    destruct r1 as [l1|ce]; [|now repeat split].
    destruct (IH l1 s1) as (IHr & IHs & IHe).
    destruct (for_each tasks (loop_body self true kw) l1 s1)
      as [[r3 s3] evs3].
    destruct (for_each tasks (loop_body self false kw) l1 s1)
      as [[r4 s4] evs4].
    simpl in *. subst. rewrite without_display_app. now repeat split.
Qed.

Lemma closed_without_display evs :
  closed (without_display evs) = closed evs.
Proof.
  induction evs as [|ev evs IH]; [reflexivity|].
  unfold closed, without_display in *. simpl.
  destruct ev; simpl; now rewrite IH.
Qed.



(** ** Pools *)

(** A pool is made for one build and no other: the pools made in a run
    are numbered in sequence, each number used once. *)
Lemma turn_pools self sp kw t l s r s' evs :
  turn self sp kw t l s r s' evs ->
  exists n,
    pools s' = pools s + n
    /\ flat_map pool_new_of evs = seq (pools s) n.
Proof.
  intros H;
    destruct H as [Hg | done w1 e raised w2 Hg Hb Hgot Hs
                  | done w1 report raised w2 Hg Hb Hgot Hs];
    unfold pools_after, description_events, build_events; simpl.
  - exists 0. now rewrite Nat.add_0_r.
  - destruct (isolated self t);
      [exists 1 | exists 0]; destruct sp, (handed_over done); simpl; split;
      try reflexivity; lia.
  - destruct (isolated self t);
      [exists 1 | exists 0]; destruct sp, (handed_over done); simpl; split;
      try reflexivity; lia.
Qed.

Lemma iterations_pools self sp kw tasks l s :
  let its := iterations self sp kw tasks l s in
  exists n,
    pools (final_store s its) = pools s + n
    /\ flat_map pool_new_of (events_of its) = seq (pools s) n.
Proof.
  revert l s; induction tasks as [|t tasks IH]; intros l s; simpl.
  - exists 0. now rewrite Nat.add_0_r.
  - destruct (loop_body_turn self sp kw t l s) as (r & s' & evs & -> & Ht).
    destruct (turn_pools Ht) as (n1 & Hp1 & Hn1).
    destruct r as [l'|ce]; simpl.
    + destruct (IH l' s') as (n2 & Hp2 & Hn2).
      exists (n1 + n2). split; [lia|].
      unfold events_of in *; simpl.
      rewrite flat_map_app, Hn1, Hn2, Hp1, seq_app. reflexivity.
    + exists n1. split; [assumption|].
      unfold events_of; simpl. now rewrite app_nil_r.
Qed.

(** ** The body of the loop, case by case *)

Lemma loop_app self sp kw pre post l s :
  loop self sp kw (pre ++ post) l s
  = match loop self sp kw pre l s with
    | (Returned lb, sb, evb) =>
        match loop self sp kw post lb sb with
        | (r, s', evs) => (r, s', evb ++ evs)
        end
    | (Raised ce, sb, evb) => (Raised ce, sb, evb)
    end.
Proof. unfold loop. now rewrite for_each_app. Qed.

Lemma loop_cons self sp kw t post l s :
  loop self sp kw (t :: post) l s
  = match loop_body self sp kw t l s with
    | (Returned l1, s1, evs1) =>
        match loop self sp kw post l1 s1 with
        | (r, s', evs) => (r, s', evs1 ++ evs)
        end
    | (Raised ce, s1, evs1) => (Raised ce, s1, evs1)
    end.
Proof. reflexivity. Qed.

Lemma loop_body_continue self sp kw t l s :
  in_Skipped_Aborted (exec_status t (world s)) = true ->
  loop_body self sp kw t l s = (Returned l, s, []).
Proof.
  intros Hg.
  destruct (loop_body_turn self sp kw t l s) as (r & s' & evs & -> & Ht).
  destruct Ht; congruence.
Qed.

Lemma loop_body_except self sp kw t l s done w1 e raised w2 :
  in_Skipped_Aborted (exec_status t (world s)) = false ->
  build t kw (world s) = (done, w1) ->
  got self t done = Raised e ->
  set_exec_status t Errored w1 = (raised, w2) ->
  loop_body self sp kw t l s
  = (match raised with
     | None =>
         Returned (mkLocals (exceptions l ++ [failure_record t e])
                            (task_reports l))
     | Some e' => Raised (Propagated e')
     end,
     mkStore w2 (pools_after self t (pools s)),
     description_events sp t ++ build_events self t kw (pools s) done
     ++ [exec_status_set t Errored raised]).
Proof.
  intros Hg Hb Hgot Hs.
  destruct (loop_body_turn self sp kw t l s) as (r & s' & evs & -> & Ht).
  destruct Ht as [Hg' | d1 w1' e1 raised1 w2' _ Hb' Hgot' Hs'
                 | d1 w1' r1 raised1 w2' _ Hb' Hgot' Hs'];
    try congruence.
  rewrite Hb in Hb'. injection Hb' as <- <-.
  rewrite Hgot in Hgot'. injection Hgot' as <-.
  rewrite Hs in Hs'. injection Hs' as <- <-. reflexivity.
Qed.

Lemma loop_body_else self sp kw t l s done w1 report raised w2 :
  in_Skipped_Aborted (exec_status t (world s)) = false ->
  build t kw (world s) = (done, w1) ->
  got self t done = Returned report ->
  set_exec_status t Executed w1 = (raised, w2) ->
  loop_body self sp kw t l s
  = (Returned (mkLocals (exceptions l
                         ++ match raised with
                            | Some e => [failure_record t e]
                            | None => []
                            end)
                        (task_reports l ++ [report])),
     mkStore w2 (pools_after self t (pools s)),
     description_events sp t ++ build_events self t kw (pools s) done
     ++ [exec_status_set t Executed raised]).
Proof.
  intros Hg Hb Hgot Hs.
  destruct (loop_body_turn self sp kw t l s) as (r & s' & evs & -> & Ht).
  destruct Ht as [Hg' | d1 w1' e1 raised1 w2' _ Hb' Hgot' Hs'
                 | d1 w1' r1 raised1 w2' _ Hb' Hgot' Hs'];
    try congruence.
  rewrite Hb in Hb'. injection Hb' as <- <-.
  rewrite Hgot in Hgot'. injection Hgot' as <-.
  rewrite Hs in Hs'. injection Hs' as <- <-. reflexivity.
Qed.


Lemma cleanup_events_collect self dag :
  failures (cleanup_events self dag : list Event) = []
  /\ reports (cleanup_events self dag : list Event) = []
  /\ without_display (cleanup_events self dag : list Event)
     = cleanup_events self dag.
Proof.
  split; [|split].
  - apply flat_map_nil_forall. intros ev H.
    now apply in_cleanup_events in H as [-> | [c ->]].
  - apply flat_map_nil_forall. intros ev H.
    now apply in_cleanup_events in H as [-> | [c ->]].
  - unfold without_display. apply forallb_filter_id.
    apply forallb_forall. intros ev H.
    now apply in_cleanup_events in H as [-> | [c ->]].
Qed.

Lemma start_events_collect self dag sp :
  failures (start_events self dag sp : list Event) = []
  /\ reports (start_events self dag sp : list Event) = []
  /\ closed (start_events self dag sp : list Event) = []
  /\ filter is_LoggerHandler_remove (start_events self dag sp : list Event)
     = []
  /\ filter is_Errored_raise (start_events self dag sp : list Event) = [].
Proof.
  unfold start_events.
  destruct (truthy (logging_directory self)), sp; now repeat split.
Qed.


(** ** The claims *)


(** C2. The write of Errored in the [except] clause (line 78) has no
    handler around it.  When the [try] of lines 71-76 raises for a task
    past the gate and that write raises in its turn, the exception of the
    write leaves [__call__]: the run ends there, with the store and the
    trace as that write left them.  The tasks that follow get no turn, the
    failure of the build is not recorded, no DAGBuildError is raised and
    lines 93-109 are not run. *)
Theorem failed_write_of_Errored_stops_the_run
    self dag sp kw s pre t post lb sb evb done w1 e e' w2 :
  values (dag_tasks dag) = pre ++ t :: post ->
  loop self sp kw pre (mkLocals MessageCollector.new []) s
  = (Returned lb, sb, evb) ->
  in_Skipped_Aborted (exec_status t (world sb)) = false ->
  build t kw (world sb) = (done, w1) ->
  got self t done = Raised e ->
  set_exec_status t Errored w1 = (Some e', w2) ->
  __call__ self dag sp kw s
  = (Raised (Propagated e'),
     mkStore w2 (pools_after self t (pools sb)),
     start_events self dag sp ++ evb
     ++ description_events sp t ++ build_events self t kw (pools sb) done
     ++ [exec_status_set t Errored (Some e')]).
Proof.
  intros Htasks Hpre Hg Hb Hgot Hs.
  rewrite call_run, Htasks, loop_app, Hpre, loop_cons.
  rewrite (loop_body_except self sp kw t lb sb Hg Hb Hgot Hs).
  reflexivity.
Qed.

(** C6. When the loop comes to a task past the gate whose build gives the
    [try] of lines 71-76 a report and the write of Executed raises, the
    turn ends normally: it has appended one failure record, made of the
    task's repr and the trace of the exception, and the report; and the
    loop goes on with the tasks that follow, from what that turn left.  The
    record is made as the one of a turn whose build raises. *)
Theorem failed_transition_is_recorded
    self sp kw pre t post l0 s0 lb sb evb done w1 report e w2 :
  loop self sp kw pre l0 s0 = (Returned lb, sb, evb) ->
  in_Skipped_Aborted (exec_status t (world sb)) = false ->
  build t kw (world sb) = (done, w1) ->
  got self t done = Returned report ->
  set_exec_status t Executed w1 = (Some e, w2) ->
  let la := mkLocals (exceptions lb ++ [failure_record t e])
                     (task_reports lb ++ [report]) in
  let sa := mkStore w2 (pools_after self t (pools sb)) in
  let evt := description_events sp t
             ++ build_events self t kw (pools sb) done
             ++ [exec_status_set t Executed (Some e)] in
  loop_body self sp kw t lb sb = (Returned la, sa, evt)
  /\ loop self sp kw (pre ++ t :: post) l0 s0
     = match loop self sp kw post la sa with
       | (r, s, evs) => (r, s, evb ++ evt ++ evs)
       end
  /\ exceptions la
     = MessageCollector.append (exceptions lb) (format_exc e) (repr t)
  /\ (forall t' l' s' done' w1' e' w2',
        in_Skipped_Aborted (exec_status t' (world s')) = false ->
        build t' kw (world s') = (done', w1') ->
        got self t' done' = Raised e' ->
        set_exec_status t' Errored w1' = (None, w2') ->
        result_of (loop_body self sp kw t' l' s')
        = Returned (mkLocals
                      (MessageCollector.append (exceptions l')
                         (format_exc e') (repr t'))
                      (task_reports l'))).
Proof.
  intros Hpre Hg Hb Hgot Hs la sa evt.
  assert (Hbody : loop_body self sp kw t lb sb = (Returned la, sa, evt))
    by exact (loop_body_else self sp kw t lb sb Hg Hb Hgot Hs).
  split; [exact Hbody|]. split; [|split].
  - rewrite loop_app, Hpre, loop_cons, Hbody.
    destruct (loop self sp kw post la sa) as [[r s] evs].
    now rewrite app_assoc.
  - reflexivity.
  - intros t' l' s' done' w1' e' w2' Hg' Hb' Hgot' Hs'.
    now rewrite (loop_body_except self sp kw t' l' s' Hg' Hb' Hgot' Hs').
Qed.

Lemma admitted_reports self sp kw its :
  (forall it, In it its ->
     it_entry_status it = exec_status (it_task it) (world (it_store_before it))
     /\ exists r,
          turn self sp kw (it_task it) (it_locals_before it)
            (it_store_before it) r (it_store_after it) (it_events it)) ->
  failures (events_of its) = [] ->
  Forall2 (fun it report =>
             fst (build (it_task it) kw (world (it_store_before it)))
             = Returned report)
    (admitted its) (reports (events_of its)).
Proof.
  induction its as [|it its IH]; intros Hturns Hnone.
  - constructor.
  - unfold events_of in *. simpl in *.
    rewrite failures_app in Hnone. apply app_eq_nil in Hnone as [Hn1 Hn2].
    rewrite reports_app.
    destruct (Hturns it (or_introl eq_refl)) as [He [r Ht]].
    specialize (IH (fun it' H => Hturns it' (or_intror H)) Hn2).
    rewrite He.
    inversion Ht as [Hg Hl Hs Hev
                    | done w1 e raised w2 Hg Hb Hgot Hset Hl Hs Hev
                    | done w1 report raised w2 Hg Hb Hgot Hset Hl Hs Hev];
      rewrite Hg; simpl.
    + exact IH.
    + exfalso. rewrite <- Hev in Hn1. revert Hn1.
      rewrite !failures_app.
      destruct (build_events_collect self (it_task it) kw
                  (pools (it_store_before it)) done) as [-> _].
      rewrite Hgot. destruct (description_events_collect sp (it_task it))
        as [-> _]. discriminate.
    + rewrite !reports_app.
      destruct (build_events_collect self (it_task it) kw
                  (pools (it_store_before it)) done) as [_ ->].
      rewrite Hgot. destruct (description_events_collect sp (it_task it))
        as [_ ->]. simpl.
      constructor; [|exact IH].
      rewrite Hb. simpl. eapply got_Returned; eassumption.
Qed.

Lemma turn_kwargs self sp kw t l s r s' evs worker t' k result :
  turn self sp kw t l s r s' evs ->
  In (Task_build worker t' k result) evs ->
  t' = t /\ k = kw /\ worker = (if isolated self t then Some (pools s) else None).
Proof.
  intros H Hin.
  destruct (in_turn _ H Hin)
    as (_ & [Hev | [(_ & [Hev | [Hev | [[? Hev] | [Hev | Hev]]]])
                   | [[? Hev] | (? & ? & Hev)]]]);
    try discriminate.
  injection Hev as -> -> -> _. auto.
Qed.

(** C4. A run in which no build and no write of Executed raises returns
    the list of reports; it has one report per turn whose task the gate let
    through (status neither Skipped nor Aborted), in the order of the
    turns, which is the order of the tasks supplied; the report of a turn
    is what the build of its task, called with [task_kwargs], returned;
    and every build of the run is called with [task_kwargs]. *)
Theorem failure_free_run_returns_reports self dag sp kw s :
  let its := run_iterations self dag sp kw s in
  let run := __call__ self dag sp kw s in
  failures (trace_of run) = [] ->
  exists rs,
    result_of run = Returned rs
    /\ List.length rs = List.length (admitted its)
    /\ Forall2 (fun it report =>
                  fst (build (it_task it) kw (world (it_store_before it)))
                  = Returned report)
         (admitted its) rs
    /\ map it_task its = values (dag_tasks dag)
    /\ (forall worker t k r, In (Task_build worker t k r) (trace_of run) ->
          k = kw).
Proof.
  intros its run Hnone.
  destruct (call_trace self dag sp kw s) as (Hf & Hr & Hev).
  fold its in Hf, Hr, Hev. fold run in Hf, Hr, Hev. rewrite Hf in Hnone.
  assert (Hturns : forall it, In it its ->
            it_entry_status it
            = exec_status (it_task it) (world (it_store_before it))
            /\ exists r,
                 turn self sp kw (it_task it) (it_locals_before it)
                   (it_store_before it) r (it_store_after it)
                   (it_events it)).
  { intros it Hin. apply run_turn in Hin as (? & r & ? & _). eauto. }
  pose proof (admitted_reports its Hturns Hnone) as Hall.
  exists (reports (events_of its)).
  destruct (call_cases self dag sp kw s)
    as [(e & t & _ & Hne & _)
       | (_ & Htasks & _ & [[Hne _] | [_ Hcall]])];
    fold its in Hne || fold its in Htasks, Hcall;
    try (now elim Hne).
  split; [|split; [|split; [|split]]].
  - subst run. rewrite Hcall. reflexivity.
  - symmetry. eapply Forall2_length; eassumption.
  - exact Hall.
  - exact Htasks.
  - intros worker t k r Hin. apply Hev in Hin as [Hin | [_ Hin]].
    + apply in_events_of in Hin as (it & Hit & Hin).
      destruct (Hturns it Hit) as [_ [r' Ht]].
      eapply turn_kwargs in Hin as (_ & -> & _); [reflexivity | exact Ht].
    + now elim (Hin worker t k r).
Qed.

(** C1, amended. In a run in which no write of Errored raises: the run
    raises DAGBuildError exactly when the loop collected at least one
    failure record, and then returns no reports; the records collected are
    the failures of the run in the order they occurred, each made of the
    task's repr and the trace of its exception; the message of the error is
    a fixed header followed by the rendered records, and the rendering
    puts, for each record and in their order, a block with the task's
    identity and the full trace. *)
Theorem run_raises_iff_failures_collected self dag sp kw s :
  let its := run_iterations self dag sp kw s in
  let run := __call__ self dag sp kw s in
  let collected :=
    exceptions (final_locals (mkLocals MessageCollector.new []) its) in
  filter is_Errored_raise (trace_of run) = [] ->
  collected = failures (trace_of run)
  /\ ((exists m, result_of run = Raised (DAGBuildError m))
      <-> collected <> [])
  /\ (collected <> [] ->
      result_of run
      = Raised (DAGBuildError
                  (DAGBuildError_header
                   ++ MessageCollector.str collected)%string))
  /\ (forall before m after,
        collected = before ++ m :: after ->
        MessageCollector.str collected
        = (MessageCollector.str before
           ++ (MessageCollector.task_str m ++ newline
               ++ MessageCollector.message m ++ newline)
           ++ MessageCollector.str after)%string).
Proof.
  intros its run collected Hquiet.
  destruct (call_trace self dag sp kw s) as (Hf & _ & _).
  fold its in Hf. fold run in Hf.
  assert (Hres : collected = failures (events_of its)
                 /\ ((collected <> []
                      /\ result_of run
                         = Raised (DAGBuildError
                                     (DAGBuildError_header
                                      ++ MessageCollector.str collected)
                                     %string))
                     \/ (collected = []
                         /\ exists rs, result_of run = Returned rs))).
  { destruct (call_cases self dag sp kw s)
      as [(e & t & Hin & _ & Hcall)
         | (_ & _ & He & [[Hne Hcall] | [Hnil Hcall]])];
      fold its in Hin || fold its in He; subst run.
    - exfalso. rewrite Hcall in Hquiet.
      unfold trace_of in Hquiet; cbn [snd] in Hquiet.
      rewrite filter_app in Hquiet. apply app_eq_nil in Hquiet as [_ Hq].
      eapply Errored_raise_event; eassumption.
    - fold collected in He. fold its in Hne, Hcall.
      rewrite Hcall. unfold result_of; cbn [fst]. rewrite He.
      split; [reflexivity|]. left. now split.
    - fold collected in He. fold its in Hnil, Hcall.
      rewrite Hcall. unfold result_of; cbn [fst]. rewrite He.
      split; [reflexivity|]. right. split; [assumption | eauto]. }
  destruct Hres as [He Hres].
  split; [now rewrite He, Hf|].
  split; [|split].
  - split.
    + intros [m Hm]. destruct Hres as [[Hne _] | [_ [rs Hrs]]]; [assumption|].
      rewrite Hrs in Hm. discriminate.
    + intros Hne. destruct Hres as [[_ Hr] | [Hnil _]]; [eauto | contradiction].
  - intros Hne. destruct Hres as [[_ Hr] | [Hnil _]]; [assumption | contradiction].
  - intros before m after ->.
    rewrite str_app. reflexivity.
Qed.

(** C3, amended. [close()] is called once for each entry of [dag.clients],
    in their order, when the run returns and _build_in_subprocess is off,
    and not at all otherwise; so a client registered under one name only is
    closed at most once, and one registered under several names once per
    name.  The logging handler is removed when the run returns and a
    logging directory is set.  A run that raises closes no client and does
    not remove the handler. *)
Theorem cleanup_happens_only_when_the_run_returns self dag sp kw s :
  let run := __call__ self dag sp kw s in
  closed (trace_of run)
  = match result_of run with
    | Returned _ =>
        if _build_in_subprocess self then [] else values (dag_clients dag)
    | Raised _ => []
    end
  /\ filter is_LoggerHandler_remove (trace_of run)
     = match result_of run with
       | Returned _ =>
           if truthy (logging_directory self)
           then [LoggerHandler_remove]
           else []
       | Raised _ => []
       end
  /\ (NoDup (values (dag_clients dag)) -> NoDup (closed (trace_of run))).
Proof.
  intros run.
  destruct (start_events_collect self dag sp) as (_ & _ & Hsc & Hsr & _).
  set (its := run_iterations self dag sp kw s).
  assert (Hic : closed (events_of its) = []).
  { apply flat_map_nil_forall. intros ev H.
    now apply loop_events_kinds in H. }
  assert (Hir : filter is_LoggerHandler_remove (events_of its) = []).
  { apply filter_nil_forall. intros ev H.
    now apply loop_events_kinds in H. }
  assert (Hcases :
    closed (trace_of run)
    = match result_of run with
      | Returned _ =>
          if _build_in_subprocess self then [] else values (dag_clients dag)
      | Raised _ => []
      end
    /\ filter is_LoggerHandler_remove (trace_of run)
       = match result_of run with
         | Returned _ =>
             if truthy (logging_directory self)
             then [LoggerHandler_remove]
             else []
         | Raised _ => []
         end).
  { subst run.
    destruct (call_shape self dag sp kw s)
      as [(ce & -> & _ & ->) | (-> & _ & ->)];
      fold its; rewrite !closed_app, !filter_app, Hsc, Hic, Hsr, Hir;
      cbn [app].
    - now split.
    - split; [apply closed_cleanup_events | apply removed_cleanup_events]. }
  destruct Hcases as [Hc Hr]. repeat split; try assumption.
  intros Hnodup. rewrite Hc.
  destruct (result_of run); [|constructor].
  destruct (_build_in_subprocess self); [constructor | assumption].
Qed.


(** C8. What [execute_in_subprocess] does when the build raises: it has
    made a new pool, numbered after the pools made before, and handed it
    the build; [get] reraises the exception of the build, and the function
    ends there, with no [close] and no [join] of the pool. *)
Theorem pool_is_left_open_when_the_build_raises t kw s e w :
  build t kw (world s) = (Raised e, w) ->
  execute_in_subprocess t kw s
  = (Raised (reraised e), mkStore w (Datatypes.S (pools s)),
     [Pool_new (pools s) 1; Pool_apply_async (pools s) t kw;
      Task_build (Some (pools s)) t kw (Raised e);
      AsyncResult_get (pools s) t (Raised (reraised e))]).
Proof. intros H. py_unfold. simpl. now rewrite H. Qed.


(** C10. Two runs that differ in show_progress only end in the same
    result (the same reports, or the same DAGBuildError with the same
    message) and in the same store, hence with the same status for every
    task, and make the same calls, the drawing of the progress bar apart;
    in particular they close the same clients. *)
Theorem show_progress_changes_the_display_only self dag kw s :
  let shown := __call__ self dag true kw s in
  let plain := __call__ self dag false kw s in
  result_of shown = result_of plain
  /\ store_of shown = store_of plain
  /\ (forall t, exec_status t (world (store_of shown))
               = exec_status t (world (store_of plain)))
  /\ without_display (trace_of shown) = trace_of plain
  /\ closed (trace_of shown) = closed (trace_of plain).
Proof.
  intros shown plain.
  assert (Hstart : without_display (start_events self dag true : list Event)
                   = start_events self dag false).
  { unfold start_events, without_display.
    now destruct (truthy (logging_directory self)). }
  assert (Hrun : result_of shown = result_of plain
                 /\ store_of shown = store_of plain
                 /\ without_display (trace_of shown) = trace_of plain).
  { destruct (loop_progress self kw (values (dag_tasks dag))
                (mkLocals MessageCollector.new []) s) as (Hr & Hs & He).
    subst shown plain. rewrite !call_run.
    destruct (loop self true kw (values (dag_tasks dag))
                (mkLocals MessageCollector.new []) s) as [[r1 s1] evs1].
    destruct (loop self false kw (values (dag_tasks dag))
                (mkLocals MessageCollector.new []) s) as [[r2 s2] evs2].
    unfold result_of, store_of, trace_of in Hr, Hs, He.
    cbn [fst snd] in Hr, Hs, He. subst r2 s2 evs2.
    destruct r1 as [l1|ce].
    - destruct (MessageCollector.bool (exceptions l1)) eqn:Hb.
      + rewrite !finish_raises by assumption.
        unfold result_of, store_of, trace_of; cbn [fst snd].
        repeat split.
        now rewrite !without_display_app, Hstart, !app_nil_r.
      + rewrite !finish_returns by assumption.
        unfold result_of, store_of, trace_of; cbn [fst snd].
        repeat split.
        destruct (cleanup_events_collect self dag) as (_ & _ & Hc).
        now rewrite !without_display_app, Hstart, Hc.
    - unfold result_of, store_of, trace_of; cbn [fst snd].
      repeat split. now rewrite !without_display_app, Hstart. }
  destruct Hrun as (Hr & Hst & Htr).
  repeat split; try assumption.
  - intros t. now rewrite Hst.
  - now rewrite <- Htr, closed_without_display.
Qed.

(** ** Beyond the claims: the whole trace of a run *)

Lemma flat_map_events_of {B : Type} (f g : Event -> list B) its :
  (forall it, In it its ->
     flat_map f (it_events it) = flat_map g (it_events it)) ->
  flat_map f (events_of its) = flat_map g (events_of its).
Proof.
  induction its as [|it its IH]; intros H; [reflexivity|].
  unfold events_of in *. simpl. rewrite !flat_map_app.
  rewrite (H it (or_introl eq_refl)), IH; [reflexivity|].
  intros it' Hin. apply H. now right.
Qed.

(** What a turn that got past the gate leaves once per turn. *)
Lemma flat_map_admitted {B : Type} (f : Event -> list B)
    (g : Iteration -> B) its :
  (forall it, In it its ->
     flat_map f (it_events it)
     = if in_Skipped_Aborted (it_entry_status it) then [] else [g it]) ->
  flat_map f (events_of its) = map g (admitted its).
Proof.
  induction its as [|it its IH]; intros H; [reflexivity|].
  unfold events_of, admitted in *. simpl. rewrite flat_map_app.
  rewrite (H it (or_introl eq_refl)), IH by (intros it' Hin; apply H; now right).
  now destruct (in_Skipped_Aborted (it_entry_status it)).
Qed.

Lemma turn_pool_events self sp kw t l s r s' evs :
  turn self sp kw t l s r s' evs ->
  flat_map pool_applied_of evs = flat_map pool_new_of evs
  /\ flat_map worker_of evs = flat_map pool_new_of evs
  /\ flat_map pool_closed_of evs = flat_map returned_worker_of evs
  /\ flat_map pool_joined_of evs = flat_map returned_worker_of evs
  /\ flat_map pool_new_of evs
     = (if negb (in_Skipped_Aborted (exec_status t (world s)))
           && isolated self t
        then [pools s] else [])
  /\ flat_map pool_new_of evs
     = flat_map returned_worker_of evs ++ flat_map raised_worker_of evs.
Proof.
  intros H;
    destruct H as [Hg | done w1 e raised w2 Hg Hb Hgot Hs
                  | done w1 report raised w2 Hg Hb Hgot Hs];
    rewrite Hg; unfold description_events, build_events;
    try destruct sp; try destruct (isolated self t);
    try destruct (handed_over done); simpl; repeat split.
Qed.

Lemma start_events_no_pool self dag sp (ev : Event) :
  In ev (start_events self dag sp) ->
  pool_new_of ev = [] /\ pool_applied_of ev = [] /\ worker_of ev = []
  /\ pool_closed_of ev = [] /\ pool_joined_of ev = []
  /\ returned_worker_of ev = [] /\ raised_worker_of ev = []
  /\ built_of ev = [] /\ written_of ev = [] /\ described_of ev = [].
Proof.
  intros H. apply in_start_events in H as [-> | [-> | ->]]; now repeat split.
Qed.

Lemma cleanup_events_no_pool self dag (ev : Event) :
  In ev (cleanup_events self dag) ->
  pool_new_of ev = [] /\ pool_applied_of ev = [] /\ worker_of ev = []
  /\ pool_closed_of ev = [] /\ pool_joined_of ev = []
  /\ returned_worker_of ev = [] /\ raised_worker_of ev = []
  /\ built_of ev = [] /\ written_of ev = [] /\ described_of ev = [].
Proof.
  intros H. apply in_cleanup_events in H as [-> | [c ->]]; now repeat split.
Qed.

Lemma store_of_run_pools self dag sp kw s :
  pools (store_of (__call__ self dag sp kw s))
  = pools (final_store s (run_iterations self dag sp kw s)).
Proof.
  destruct (call_shape self dag sp kw s) as [(m & _ & -> & _) | (_ & -> & _)];
    [reflexivity|].
  unfold cleanup_store. now destruct (_build_in_subprocess self).
Qed.

(** X1. The pools of a run are made one per build that goes to a
    subprocess: they are numbered one after the other from the number of
    pools made before the run, no number comes twice, each pool is handed
    exactly one call, the builds that run in a pool run each in its own,
    and there are as many pools as turns past the gate whose task is
    isolated. *)
Theorem pools_are_made_one_per_isolated_build self dag sp kw s :
  let its := run_iterations self dag sp kw s in
  let run := __call__ self dag sp kw s in
  let made := flat_map pool_new_of (trace_of run) in
  made = seq (pools s) (List.length made)
  /\ NoDup made
  /\ flat_map pool_applied_of (trace_of run) = made
  /\ flat_map worker_of (trace_of run) = made
  /\ List.length made
     = List.length (filter (fun it => isolated self (it_task it))
                      (admitted its))
  /\ pools (store_of run) = pools s + List.length made.
Proof.
  intros its run made.
  assert (Hmade : made = flat_map pool_new_of (events_of its)).
  { apply flat_map_call; intros ev H.
    - now apply start_events_no_pool in H.
    - now apply cleanup_events_no_pool in H. }
  destruct (iterations_pools self sp kw (values (dag_tasks dag))
              (mkLocals MessageCollector.new []) s) as (n & Hp & Hn).
  fold (run_iterations self dag sp kw s) in Hp, Hn. fold its in Hp, Hn.
  assert (Hlen : List.length made = n)
    by (rewrite Hmade, Hn; apply length_seq).
  assert (Hturns : forall it, In it its ->
            flat_map pool_applied_of (it_events it)
            = flat_map pool_new_of (it_events it)
            /\ flat_map worker_of (it_events it)
               = flat_map pool_new_of (it_events it)
            /\ flat_map pool_new_of (it_events it)
               = if negb (in_Skipped_Aborted (it_entry_status it))
                    && isolated self (it_task it)
                 then [pools (it_store_before it)] else []).
  { intros it Hin. apply run_turn in Hin as (-> & r & Ht & _).
    apply turn_pool_events in Ht. tauto. }
  split; [now rewrite Hlen, Hmade|].
  split; [rewrite Hmade, Hn; apply seq_NoDup|].
  split; [|split; [|split]].
  - rewrite Hmade. subst run.
    rewrite flat_map_call
      by (intros ev H;
          first [now apply start_events_no_pool in H
                | now apply cleanup_events_no_pool in H]).
    apply flat_map_events_of. intros it Hin. now apply Hturns.
  - rewrite Hmade. subst run.
    rewrite flat_map_call
      by (intros ev H;
          first [now apply start_events_no_pool in H
                | now apply cleanup_events_no_pool in H]).
    apply flat_map_events_of. intros it Hin. now apply Hturns.
  - rewrite Hmade. clear Hmade Hlen Hp Hn made run.
    induction its as [|it its' IH]; [reflexivity|].
    unfold events_of, admitted in *. simpl. rewrite flat_map_app, length_app.
    destruct (Hturns it (or_introl eq_refl)) as (_ & _ & ->).
    rewrite IH by (intros it' Hin; apply Hturns; now right).
    destruct (in_Skipped_Aborted (it_entry_status it)); simpl; [reflexivity|].
    now destruct (isolated self (it_task it)).
  - subst run. rewrite store_of_run_pools. fold its. now rewrite Hlen.
Qed.

Lemma in_flat_map_events_of {B : Type} (f : Event -> list B) its (b : B) :
  In b (flat_map f (events_of its))
  <-> exists it, In it its /\ In b (flat_map f (it_events it)).
Proof.
  rewrite in_flat_map. split.
  - intros (ev & Hev & Hb). apply in_events_of in Hev as (it & Hit & Hev).
    exists it. split; [assumption|]. apply in_flat_map. eauto.
  - intros (it & Hit & Hb). apply in_flat_map in Hb as (ev & Hev & Hb).
    exists ev. split; [|assumption]. apply in_events_of. eauto.
Qed.

(** No pool is both one whose [get] returned and one whose [get]
    raised. *)
Lemma returned_raised_disjoint its (p : nat) :
  (forall it, In it its ->
     flat_map pool_new_of (it_events it)
     = flat_map returned_worker_of (it_events it)
       ++ flat_map raised_worker_of (it_events it)) ->
  NoDup (flat_map pool_new_of (events_of its)) ->
  In p (flat_map returned_worker_of (events_of its)) ->
  In p (flat_map raised_worker_of (events_of its)) ->
  False.
Proof.
  intros Hturns.
  assert (Hmade : forall its' q,
            (forall it, In it its' -> In it its) ->
            In q (flat_map returned_worker_of (events_of its'))
            \/ In q (flat_map raised_worker_of (events_of its')) ->
            In q (flat_map pool_new_of (events_of its'))).
  { intros its' q Hsub H. apply in_flat_map_events_of.
    destruct H as [H | H]; apply in_flat_map_events_of in H as (it & Hit & H);
      exists it; (split; [assumption|]);
      rewrite (Hturns it (Hsub it Hit)), in_app_iff; auto. }
  assert (Hgen : forall its',
            (forall it, In it its' -> In it its) ->
            NoDup (flat_map pool_new_of (events_of its')) ->
            In p (flat_map returned_worker_of (events_of its')) ->
            In p (flat_map raised_worker_of (events_of its')) ->
            False).
  { induction its' as [|it its' IH]; intros Hsub Hnd Hr Hx; [destruct Hr|].
    unfold events_of in *. simpl in *. rewrite !flat_map_app in *.
    assert (Hsub' : forall it', In it' its' -> In it' its)
      by (intros it' H; apply Hsub; now right).
    pose proof (Hturns it (Hsub it (or_introl eq_refl))) as Hit.
    rewrite Hit in Hnd.
    pose proof (NoDup_app_remove_l _ _ Hnd) as Hnd'.
    pose proof (NoDup_app_remove_r _ _ Hnd) as Hnd1.
    assert (Hdisj : forall q,
              In q (flat_map returned_worker_of (it_events it)
                    ++ flat_map raised_worker_of (it_events it)) ->
              In q (flat_map pool_new_of (flat_map it_events its')) ->
              False).
    { intros q H1 H2. revert Hnd H1 H2. clear.
      generalize (flat_map returned_worker_of (it_events it)
                  ++ flat_map raised_worker_of (it_events it)).
      intros xs. induction xs as [|x xs IHx]; simpl; intros Hnd H1 H2;
        [destruct H1|].
      inversion Hnd as [|? ? Hnin Hnd']; subst.
      destruct H1 as [-> | H1].
      - apply Hnin. rewrite in_app_iff. now right.
      - now apply IHx. }
    apply in_app_iff in Hr as [Hr | Hr]; apply in_app_iff in Hx as [Hx | Hx].
    - revert Hnd1 Hr Hx. clear.
      generalize (flat_map returned_worker_of (it_events it)).
      generalize (flat_map raised_worker_of (it_events it)).
      intros xs rs. induction rs as [|r rs IHr]; simpl; intros Hnd Hr Hx;
        [destruct Hr|].
      inversion Hnd as [|? ? Hnin Hnd']; subst.
      destruct Hr as [-> | Hr].
      + apply Hnin. rewrite in_app_iff. now right.
      + now apply IHr.
    - apply (Hdisj p); [rewrite in_app_iff; now left|].
      apply (Hmade its' p Hsub'). now right.
    - apply (Hdisj p); [rewrite in_app_iff; now right|].
      apply (Hmade its' p Hsub'). now left.
    - now apply IH. }
  apply Hgen. auto.
Qed.

(** X2. In a run, the pools closed are the pools joined, and they are the
    pools whose [get] returned, in the order of the builds; a pool whose
    [get] raised (the build raised, or its report could not be sent back)
    is neither closed nor joined, so the pools left open are as many as the
    calls of [get] that raised. *)
Theorem pools_are_closed_iff_get_returned self dag sp kw s :
  let evs := trace_of (__call__ self dag sp kw s) in
  flat_map pool_closed_of evs = flat_map returned_worker_of evs
  /\ flat_map pool_joined_of evs = flat_map returned_worker_of evs
  /\ List.length (flat_map pool_new_of evs)
     = List.length (flat_map pool_closed_of evs)
       + List.length (flat_map raised_worker_of evs)
  /\ (forall p t e,
        In (AsyncResult_get p t (Raised e)) evs ->
        ~ In (Pool_close p) evs /\ ~ In (Pool_join p) evs).
Proof.
  intros evs.
  set (its := run_iterations self dag sp kw s).
  assert (Hcall : forall f : Event -> list nat,
            (forall ev, In ev (start_events self dag sp) -> f ev = []) ->
            (forall ev, In ev (cleanup_events self dag) -> f ev = []) ->
            flat_map f evs = flat_map f (events_of its))
    by (intros f; apply flat_map_call).
  assert (Hturns : forall it, In it its ->
            flat_map pool_closed_of (it_events it)
            = flat_map returned_worker_of (it_events it)
            /\ flat_map pool_joined_of (it_events it)
               = flat_map returned_worker_of (it_events it)
            /\ flat_map pool_new_of (it_events it)
               = flat_map returned_worker_of (it_events it)
                 ++ flat_map raised_worker_of (it_events it)).
  { intros it Hin. apply run_turn in Hin as (_ & r & Ht & _).
    apply turn_pool_events in Ht. tauto. }
  assert (Hn : flat_map pool_new_of evs
               = flat_map pool_new_of (events_of its))
    by (apply Hcall; intros ev H;
        [now apply start_events_no_pool in H
        | now apply cleanup_events_no_pool in H]).
  assert (Hr : flat_map returned_worker_of evs
               = flat_map returned_worker_of (events_of its))
    by (apply Hcall; intros ev H;
        [now apply start_events_no_pool in H
        | now apply cleanup_events_no_pool in H]).
  assert (Hx : flat_map raised_worker_of evs
               = flat_map raised_worker_of (events_of its))
    by (apply Hcall; intros ev H;
        [now apply start_events_no_pool in H
        | now apply cleanup_events_no_pool in H]).
  assert (Hc : flat_map pool_closed_of evs = flat_map returned_worker_of evs).
  { rewrite Hr, (Hcall pool_closed_of)
      by (intros ev H;
          first [now apply start_events_no_pool in H
                | now apply cleanup_events_no_pool in H]).
    apply flat_map_events_of. intros it Hin. now apply Hturns. }
  assert (Hj : flat_map pool_joined_of evs = flat_map returned_worker_of evs).
  { rewrite Hr, (Hcall pool_joined_of)
      by (intros ev H;
          first [now apply start_events_no_pool in H
                | now apply cleanup_events_no_pool in H]).
    apply flat_map_events_of. intros it Hin. now apply Hturns. }
  split; [exact Hc | split; [exact Hj | split]].
  - rewrite Hc, Hn, Hr, Hx. clear - Hturns. clearbody its.
    induction its as [|it its' IH]; [reflexivity|].
    unfold events_of in *. simpl. rewrite !flat_map_app, !length_app.
    destruct (Hturns it (or_introl eq_refl)) as (_ & _ & ->).
    rewrite length_app.
    rewrite IH by (intros it' Hin; apply Hturns; now right). lia.
  - intros p t e Hin.
    assert (Hnd : NoDup (flat_map pool_new_of (events_of its))).
    { destruct (iterations_pools self sp kw (values (dag_tasks dag))
                  (mkLocals MessageCollector.new []) s) as (n & _ & Hseq).
      fold (run_iterations self dag sp kw s) in Hseq. fold its in Hseq.
      rewrite Hseq. apply seq_NoDup. }
    assert (Hp : In p (flat_map raised_worker_of (events_of its))).
    { rewrite <- Hx. apply in_flat_map. eexists. split; [exact Hin|].
      now left. }
    assert (Hnot : ~ In p (flat_map returned_worker_of evs)).
    { rewrite Hr. intros Hret.
      apply (returned_raised_disjoint its p); auto.
      intros it Hit. now apply Hturns. }
    split; intros Hcl; apply Hnot.
    + rewrite <- Hc. apply in_flat_map. eexists. split; [exact Hcl|].
      now left.
    + rewrite <- Hj. apply in_flat_map. eexists. split; [exact Hcl|].
      now left.
Qed.

Lemma turn_built self sp kw t l s r s' evs :
  turn self sp kw t l s r s' evs ->
  flat_map built_of evs
  = (if in_Skipped_Aborted (exec_status t (world s)) then [] else [t])
  /\ flat_map written_of evs
     = (if in_Skipped_Aborted (exec_status t (world s)) then [] else [t])
  /\ flat_map described_of evs
     = (if in_Skipped_Aborted (exec_status t (world s))
        then []
        else if sp then [Building_task (name t)] else []).
Proof.
  intros H;
    destruct H as [Hg | done w1 e raised w2 Hg Hb Hgot Hs
                  | done w1 report raised w2 Hg Hb Hgot Hs];
    rewrite Hg; unfold description_events, build_events;
    try destruct sp; try destruct (isolated self t);
    try destruct (handed_over done); now repeat split.
Qed.

(** X3. In a run, the tasks built are the tasks the gate let through, each
    built once and in the order supplied, and the tasks whose status is
    written are the same tasks, each written once and in the same order:
    no task is built twice, built without its status being written, or
    written without having been built. *)
Theorem tasks_built_are_tasks_written self dag sp kw s :
  let its := run_iterations self dag sp kw s in
  let evs := trace_of (__call__ self dag sp kw s) in
  flat_map built_of evs = map it_task (admitted its)
  /\ flat_map written_of evs = map it_task (admitted its).
Proof.
  intros its evs. subst evs.
  rewrite !flat_map_call
    by (intros ev H;
        first [now apply start_events_no_pool in H
              | now apply cleanup_events_no_pool in H]).
  fold its.
  split; apply flat_map_admitted; intros it Hin;
    apply run_turn in Hin as (-> & r & Ht & _);
    now apply turn_built in Ht.
Qed.

(** X4. What one more turn of the loop leaves.  After the turns of the
    tasks before it ended normally, the turn of a task stopped at the gate
    leaves the two lists, the store and the trace as they were; the turn of
    a task past the gate appends a report when the [try] of lines 71-76
    was given one, and with it a failure record when the write of Executed
    raised; it appends a failure record and no report when that [try]
    raised; and when the write of Errored raises in its turn, nothing is
    appended and the exception of the write ends the loop. *)
Theorem every_admitted_turn_leaves_a_report_or_a_record
    self sp kw pre t l0 s0 lb sb evb :
  loop self sp kw pre l0 s0 = (Returned lb, sb, evb) ->
  let done := fst (build t kw (world sb)) in
  let w1 := snd (build t kw (world sb)) in
  exists sa evt,
    loop self sp kw (pre ++ [t]) l0 s0
    = (if in_Skipped_Aborted (exec_status t (world sb))
       then Returned lb
       else
         match got self t done with
         | Returned report =>
             Returned
               (mkLocals
                  (exceptions lb
                   ++ match fst (set_exec_status t Executed w1) with
                      | Some e => [failure_record t e]
                      | None => []
                      end)
                  (task_reports lb ++ [report]))
         | Raised e =>
             match fst (set_exec_status t Errored w1) with
             | None =>
                 Returned (mkLocals (exceptions lb ++ [failure_record t e])
                                    (task_reports lb))
             | Some e' => Raised (Propagated e')
             end
         end,
       sa, evb ++ evt)
    /\ (in_Skipped_Aborted (exec_status t (world sb)) = true ->
        sa = sb /\ evt = [])
    /\ (in_Skipped_Aborted (exec_status t (world sb)) = false ->
        exists worker,
          In (Task_build worker t kw done) evt
          /\ exists v raised, In (exec_status_set t v raised) evt).
Proof.
  intros Hpre done w1. rewrite loop_app, Hpre, loop_cons.
  destruct (in_Skipped_Aborted (exec_status t (world sb))) eqn:Hg.
  - rewrite (loop_body_continue self sp kw t lb sb Hg).
    exists sb, []. split; [reflexivity|]. split; [auto | discriminate].
  - assert (Hb : build t kw (world sb) = (done, w1))
      by (subst done w1; now destruct (build t kw (world sb))).
    assert (Hbuilt : forall raised v,
              exists worker,
                In (Task_build worker t kw done)
                  (description_events sp t
                   ++ build_events self t kw (pools sb) done
                   ++ [exec_status_set t v raised])).
    { intros raised v.
      exists (if isolated self t then Some (pools sb) else None).
      rewrite !in_app_iff. right; left.
      unfold build_events. destruct (isolated self t); simpl; auto. }
    destruct (got self t done) as [report|e] eqn:Hgot.
    + destruct (set_exec_status t Executed w1) as [raised w2] eqn:Hs.
      rewrite (loop_body_else self sp kw t lb sb Hg Hb Hgot Hs).
      do 2 eexists. split; [cbn [fst loop for_each ret]; reflexivity|].
      split; [discriminate|]. intros _.
      destruct (Hbuilt raised Executed) as [worker Hw].
      exists worker. split; [rewrite app_nil_r; exact Hw|].
      exists Executed, raised. rewrite app_nil_r, !in_app_iff.
      right; right. now left.
    + destruct (set_exec_status t Errored w1) as [raised w2] eqn:Hs.
      rewrite (loop_body_except self sp kw t lb sb Hg Hb Hgot Hs).
      destruct raised as [e'|].
      * do 2 eexists. split; [reflexivity|].
        split; [discriminate|]. intros _.
        destruct (Hbuilt (Some e') Errored) as [worker Hw].
        exists worker. split; [exact Hw|].
        exists Errored, (Some e'). rewrite !in_app_iff.
        right; right. now left.
      * do 2 eexists. split; [cbn [fst loop for_each ret]; reflexivity|].
        split; [discriminate|]. intros _.
        destruct (Hbuilt (@None Exception) Errored) as [worker Hw].
        exists worker. split; [rewrite app_nil_r; exact Hw|].
        exists Errored, None. rewrite app_nil_r, !in_app_iff.
        right; right. now left.
Qed.

Lemma failures_failed_tasks evs :
  map MessageCollector.task_str (failures evs)
  = map repr (flat_map failed_task_of evs).
Proof.
  induction evs as [|ev evs IH]; [reflexivity|].
  unfold failures in *. simpl. rewrite !map_app, IH. f_equal.
  destruct ev as [ | | | | | | | | | [p|] t k [r|e] | p t [r|e]
                 | t [] [e|] | ]; reflexivity.
Qed.

Lemma turn_failed self sp kw t l s r s' evs :
  turn self sp kw t l s r s' evs ->
  flat_map failed_task_of evs
  = match failures evs with
    | [] => []
    | _ :: _ => [t]
    end.
Proof.
  intros H;
    destruct H as [Hg | done w1 e raised w2 Hg Hb Hgot Hs
                  | done w1 report raised w2 Hg Hb Hgot Hs].
  - reflexivity.
  - revert Hgot. unfold got, failures, description_events, build_events.
    destruct sp, (isolated self t), (handed_over done), done;
      simpl; intros Hgot; try discriminate; reflexivity.
  - revert Hgot. unfold got, failures, description_events, build_events.
    destruct sp, (isolated self t), (handed_over done), done, raised;
      simpl; intros Hgot; try discriminate; reflexivity.
Qed.

(** X5. The sections of the message follow the tasks.  When the loop ends
    normally, the identities in the failure records it collected are the
    reprs of the tasks whose exception reached one of its two [except]
    clauses, one per turn that failed and in the order of the turns, which
    is the order of [dag.values()]; and when there is such a record the
    run raises DAGBuildError with the header followed by these records
    rendered. *)
Theorem failure_records_follow_the_tasks self dag sp kw s lf sf evs :
  loop self sp kw (values (dag_tasks dag)) (mkLocals MessageCollector.new [])
    s = (Returned lf, sf, evs) ->
  let its := run_iterations self dag sp kw s in
  map MessageCollector.task_str (exceptions lf)
  = map repr (flat_map failed_task_of evs)
  /\ flat_map failed_task_of evs = map it_task (filter failed its)
  /\ map it_task its = values (dag_tasks dag)
  /\ (exceptions lf <> [] ->
      result_of (__call__ self dag sp kw s)
      = Raised (DAGBuildError
                  (DAGBuildError_header
                   ++ MessageCollector.str (exceptions lf))%string)).
Proof.
  intros Hloop its.
  destruct (loop_spec self sp kw (values (dag_tasks dag))
              (mkLocals MessageCollector.new []) s) as (r & Hspec & Hr).
  fold (run_iterations self dag sp kw s) in Hspec, Hr. fold its in Hspec, Hr.
  rewrite Hloop in Hspec. injection Hspec as <- _ ->.
  destruct Hr as (_ & Htasks & He & _ & _). simpl in He.
  split; [rewrite He; apply failures_failed_tasks|].
  split; [|split; [exact Htasks|]].
  - assert (Hturns : forall it, In it its ->
              flat_map failed_task_of (it_events it)
              = if failed it then [it_task it] else []).
    { intros it Hin. apply run_turn in Hin as (_ & r & Ht & _).
      apply turn_failed in Ht. rewrite Ht. unfold failed.
      now destruct (failures (it_events it)). }
    clear - Hturns. clearbody its.
    induction its as [|it its' IH]; [reflexivity|].
    unfold events_of in *. simpl. rewrite flat_map_app.
    rewrite (Hturns it (or_introl eq_refl)).
    rewrite IH by (intros it' H; apply Hturns; now right).
    now destruct (failed it).
  - intros Hne. rewrite call_run, Hloop.
    apply bool_collector in Hne.
    rewrite (finish_raises self dag lf sf Hne). reflexivity.
Qed.

Lemma loop_all_stopped self sp kw tasks l s :
  (forall t, In t tasks ->
     in_Skipped_Aborted (exec_status t (world s)) = true) ->
  loop self sp kw tasks l s = (Returned l, s, []).
Proof.
  induction tasks as [|t tasks IH]; intros Hall; [reflexivity|].
  rewrite loop_cons.
  rewrite (loop_body_continue self sp kw t l s (Hall t (or_introl eq_refl))).
  rewrite IH by (intros t' Hin; apply Hall; now right). reflexivity.
Qed.

(** X6. When every task of the DAG is Skipped or Aborted as the run
    starts (and so when the DAG has no task), the run builds nothing and
    writes no status: it returns the empty list and its trace is lines
    48-62 followed by the cleanup, which closes the clients when
    _build_in_subprocess is off. *)
Theorem nothing_to_build self dag sp kw s :
  (forall t, In t (values (dag_tasks dag)) ->
     exec_status t (world s) = Skipped \/ exec_status t (world s) = Aborted) ->
  let run := __call__ self dag sp kw s in
  result_of run = Returned []
  /\ store_of run = cleanup_store self dag s
  /\ trace_of run = start_events self dag sp ++ cleanup_events self dag.
Proof.
  intros Hall run. subst run.
  rewrite call_run, loop_all_stopped
    by (intros t Hin; apply gate_cases; now apply Hall).
  rewrite finish_returns by reflexivity.
  unfold result_of, store_of, trace_of; cbn [fst snd]. now repeat split.
Qed.

(** X7. In every run, failing or not, each build and each call handed to
    a pool is for a task of the DAG and carries the [task_kwargs] given to
    the run, every pool is made with one process, and a status is written
    on tasks of the DAG only. *)
Theorem task_kwargs_reach_every_build self dag sp kw s :
  let evs := trace_of (__call__ self dag sp kw s) in
  (forall worker t k result,
     In (Task_build worker t k result) evs ->
     k = kw /\ In t (values (dag_tasks dag)))
  /\ (forall p t k,
        In (Pool_apply_async p t k) evs ->
        k = kw /\ In t (values (dag_tasks dag)))
  /\ (forall p processes, In (Pool_new p processes) evs -> processes = 1)
  /\ (forall t v raised,
        In (exec_status_set t v raised) evs -> In t (values (dag_tasks dag))).
Proof.
  intros evs.
  assert (Hin : forall ev, In ev evs ->
            In ev (events_of (run_iterations self dag sp kw s))
            \/ ev = Executor_call (dag_name dag)
            \/ ev = LoggerHandler_add (dag_name dag)
                      (directory_of (logging_directory self))
                      (logging_level self)
            \/ ev = tqdm_new (len (dag_tasks dag))
            \/ ev = LoggerHandler_remove
            \/ exists c, ev = Client_close c).
  { intros ev. subst evs.
    destruct (call_shape self dag sp kw s) as [(m & _ & _ & ->) | (_ & _ & ->)];
      rewrite !in_app_iff; intros H.
    - destruct H as [H | H]; [apply in_start_events in H|]; tauto.
    - destruct H as [H | [H | H]];
        [apply in_start_events in H | | apply in_cleanup_events in H]; tauto. }
  assert (Hloop : forall ev, In ev evs ->
            (forall worker t k result, ev = Task_build worker t k result ->
               k = kw /\ In t (values (dag_tasks dag)))
            /\ (forall p t k, ev = Pool_apply_async p t k ->
                  k = kw /\ In t (values (dag_tasks dag)))
            /\ (forall p processes, ev = Pool_new p processes -> processes = 1)
            /\ (forall t v raised, ev = exec_status_set t v raised ->
                  In t (values (dag_tasks dag)))).
  { intros ev Hev.
    apply Hin in Hev as [Hev | [-> | [-> | [-> | [-> | [c ->]]]]]];
      try (repeat split; discriminate).
    apply in_loop_events in Hev
      as (it & t' & _ & _ & _ & Ht' & _
          & [-> | [(_ & [-> | [-> | [[? ->] | [-> | ->]]]])
                  | [[? ->] | (? & ? & ->)]]]);
      repeat split; try discriminate;
      intros; match goal with H : _ = _ |- _ => injection H as; subst end;
      auto. }
  split; [|split; [|split]].
  - intros worker t k result H.
    destruct (Hloop _ H) as (Hb & _). now apply (Hb worker t k result).
  - intros p t k H.
    destruct (Hloop _ H) as (_ & Ha & _). now apply (Ha p t k).
  - intros p processes H.
    destruct (Hloop _ H) as (_ & _ & Hp & _). now apply (Hp p processes).
  - intros t v raised H.
    destruct (Hloop _ H) as (_ & _ & _ & Hw). now apply (Hw t v raised).
Qed.

(** X8. The logging handler is added when [logging_directory] is a
    non-empty string, and not when it is None or the empty string; it is
    added once, right after the call of the base class and before any task
    is looked at, for the name of the DAG, the directory and the level of
    the executor.  It is removed at most once, and a run that raises with
    logging on leaves it attached: one add and no remove. *)
Theorem logging_handler_is_added_at_the_start self dag sp kw s :
  let run := __call__ self dag sp kw s in
  let added := filter is_LoggerHandler_add (trace_of run) in
  added
  = match logging_directory self with
    | Some (String c d) =>
        [LoggerHandler_add (dag_name dag) (String c d) (logging_level self)]
    | _ => []
    end
  /\ (exists rest,
        trace_of run = Executor_call (dag_name dag) :: added ++ rest
        /\ filter is_LoggerHandler_add rest = [])
  /\ List.length (filter is_LoggerHandler_remove (trace_of run))
     = match result_of run with
       | Returned _ => List.length added
       | Raised _ => 0
       end.
Proof.
  intros run added.
  set (its := run_iterations self dag sp kw s).
  assert (Hloop : filter is_LoggerHandler_add (events_of its) = []
                  /\ filter is_LoggerHandler_remove (events_of its) = []).
  { split; apply filter_nil_forall; intros ev H;
      now apply loop_events_kinds in H. }
  destruct Hloop as [Hla Hlr].
  assert (Hca : filter is_LoggerHandler_add
                  (cleanup_events self dag : list Event) = []).
  { apply filter_nil_forall. intros ev H.
    now apply in_cleanup_events in H as [-> | [c ->]]. }
  pose proof (removed_cleanup_events self dag) as Hcr.
  assert (Hstart : (start_events self dag sp : list Event)
                   = Executor_call (dag_name dag)
                     :: match logging_directory self with
                        | Some (String c d) =>
                            [LoggerHandler_add (dag_name dag) (String c d)
                               (logging_level self)]
                        | _ => []
                        end
                     ++ (if sp then [tqdm_new (len (dag_tasks dag))] else [])).
  { unfold start_events. now destruct (logging_directory self) as [[|c d]|]. }
  assert (Hadded : added
                   = match logging_directory self with
                     | Some (String c d) =>
                         [LoggerHandler_add (dag_name dag) (String c d)
                            (logging_level self)]
                     | _ => []
                     end).
  { subst added run.
    destruct (call_shape self dag sp kw s) as [(m & _ & _ & ->) | (_ & _ & ->)];
      fold its; rewrite !filter_app, Hla, ?Hca, ?app_nil_r, Hstart;
      destruct (logging_directory self) as [[|c d]|], sp; reflexivity. }
  split; [exact Hadded|]. split.
  - rewrite Hadded. subst run.
    destruct (call_shape self dag sp kw s) as [(m & _ & _ & ->) | (_ & _ & ->)];
      fold its; rewrite Hstart.
    + exists ((if sp then [tqdm_new (len (dag_tasks dag))] else [])
              ++ events_of its).
      split; [simpl; now rewrite <- app_assoc|].
      rewrite filter_app, Hla. now destruct sp.
    + exists ((if sp then [tqdm_new (len (dag_tasks dag))] else [])
              ++ events_of its ++ cleanup_events self dag).
      split; [simpl; now rewrite <- !app_assoc|].
      rewrite !filter_app, Hla, Hca. now destruct sp.
  - rewrite Hadded. subst run.
    destruct (call_shape self dag sp kw s)
      as [(m & -> & _ & ->) | (-> & _ & ->)];
      fold its; rewrite !filter_app, Hlr, ?Hcr, Hstart;
      destruct (logging_directory self) as [[|c d]|], sp; reflexivity.
Qed.

Lemma split_after {A : Type} (P : A -> bool) (xs ys a b : list A) (e : A) :
  (forall x, In x xs -> P x = false) ->
  xs ++ ys = a ++ e :: b ->
  P e = true ->
  exists a', ys = a' ++ e :: b.
Proof.
  revert a; induction xs as [|x xs IH]; intros a Hxs Heq He.
  - exists a. exact Heq.
  - destruct a as [|y a]; simpl in Heq; injection Heq as -> Heq.
    + rewrite (Hxs e (or_introl eq_refl)) in He. discriminate.
    + apply (IH a); auto. intros x' Hin. apply Hxs. now right.
Qed.

(** X9. The cleanup comes last: once the logging handler has been removed
    or a client closed, the run only closes clients; no task is built, no
    status is written and no pool is made after that. *)
Theorem nothing_is_built_after_the_cleanup self dag sp kw s before ev after :
  trace_of (__call__ self dag sp kw s) = before ++ ev :: after ->
  is_LoggerHandler_remove ev = true \/ is_Client_close ev = true ->
  forall ev', In ev' after -> exists c, ev' = Client_close c.
Proof.
  intros Heq Hev ev' Hin.
  set (P := fun x : Event => is_LoggerHandler_remove x || is_Client_close x).
  assert (HP : P ev = true)
    by (unfold P; destruct Hev as [-> | ->]; [reflexivity | apply orb_true_r]).
  assert (Hquiet : forall x,
            In x (start_events self dag sp
                  ++ events_of (run_iterations self dag sp kw s)) ->
            P x = false).
  { intros x. rewrite in_app_iff. intros [H | H]; unfold P.
    - now apply in_start_events in H as [-> | [-> | ->]].
    - apply loop_events_kinds in H as (_ & -> & -> & _). reflexivity. }
  destruct (call_shape self dag sp kw s) as [(m & _ & _ & Ht) | (_ & _ & Ht)];
    rewrite Ht in Heq.
  - exfalso. assert (Hin' : In ev (before ++ ev :: after))
      by (rewrite in_app_iff; right; now left).
    rewrite <- Heq in Hin'. rewrite (Hquiet ev Hin') in HP. discriminate.
  - rewrite app_assoc in Heq.
    destruct (split_after P _ _ _ _ _ Hquiet Heq HP) as (a' & Hc).
    assert (Hclients : forall x,
              In x (if _build_in_subprocess self
                    then []
                    else map (@Client_close Task Kwargs Report Client)
                           (values (dag_clients dag))) ->
              exists c, x = Client_close c).
    { intros x Hx. destruct (_build_in_subprocess self); [destruct Hx|].
      apply in_map_iff in Hx as (c & <- & _). eauto. }
    unfold cleanup_events in Hc.
    destruct (truthy (logging_directory self)); simpl in Hc.
    + destruct a' as [|y a']; simpl in Hc; injection Hc as _ Hc.
      * apply Hclients. now rewrite Hc.
      * apply Hclients. rewrite Hc, in_app_iff. right. now right.
    + apply Hclients. rewrite Hc, in_app_iff. right. now right.
Qed.

Lemma flat_map_in_nil {A B : Type} (f : A -> list B) (xs : list A) (x : A) :
  flat_map f xs = [] -> In x xs -> f x = [].
Proof.
  induction xs as [|y xs IH]; simpl; [tauto|].
  intros H [-> | Hin]; apply app_eq_nil in H as [H1 H2]; auto.
Qed.

(** X14. With show_progress on, the progress bar is made once, with the
    number of all the tasks of the DAG as its total, the ones the gate
    stops included, and its description is set once per task built, to
    'Building task' and the name of the task in double quotes, in the order
    of the builds; a task stopped at the gate is never described.  With
    show_progress off no bar is made and no description is set. *)
Theorem progress_bar_describes_the_tasks_built self dag sp kw s :
  let its := run_iterations self dag sp kw s in
  let evs := trace_of (__call__ self dag sp kw s) in
  flat_map tqdm_total_of evs
  = (if sp then [List.length (values (dag_tasks dag))] else [])
  /\ flat_map described_of evs
     = (if sp
        then map (fun it => Building_task (name (it_task it))) (admitted its)
        else []).
Proof.
  intros its evs. subst evs.
  assert (Hturns : forall it, In it its ->
            flat_map described_of (it_events it)
            = (if in_Skipped_Aborted (it_entry_status it)
               then []
               else if sp then [Building_task (name (it_task it))] else [])).
  { intros it Hin. apply run_turn in Hin as (-> & r & Ht & _).
    now apply turn_built in Ht. }
  split.
  - assert (Hl : flat_map tqdm_total_of (events_of its) = []).
    { apply flat_map_nil_forall. intros ev Hin.
      now apply loop_events_kinds in Hin. }
    assert (Hc : flat_map tqdm_total_of
                   (cleanup_events self dag : list Event) = []).
    { apply flat_map_nil_forall. intros ev Hin.
      now apply in_cleanup_events in Hin as [-> | [c ->]]. }
    assert (Hs : flat_map tqdm_total_of
                   (start_events self dag sp : list Event)
                 = if sp then [List.length (values (dag_tasks dag))] else []).
    { unfold start_events, values, len. rewrite length_map.
      now destruct (truthy (logging_directory self)), sp. }
    destruct (call_shape self dag sp kw s) as [(m & _ & _ & ->) | (_ & _ & ->)];
      fold its; rewrite !flat_map_app, Hl, ?Hc, Hs, ?app_nil_r; reflexivity.
  - rewrite flat_map_call.
    + fold its. destruct sp.
      * apply flat_map_admitted. intros it Hin. now apply Hturns.
      * apply flat_map_nil_forall. intros ev Hin.
        apply in_events_of in Hin as (it & Hit & Hin).
        pose proof (Hturns it Hit) as Hd.
        destruct (in_Skipped_Aborted (it_entry_status it));
          eapply flat_map_in_nil; eassumption.
    + intros ev H. now apply start_events_no_pool in H.
    + intros ev H. now apply cleanup_events_no_pool in H.
Qed.

End ExecutorFacts.

(** * Pickling: [__getstate__] and [__setstate__] *)

Module PicklingFacts.

Import Pickling.

Lemma getitem_setitem (d : Dict) (k k' : string) (v : Value) :
  getitem (setitem d k v) k'
  = if String.eqb k' k then Some v else getitem d k'.
Proof.
  induction d as [|[k0 v0] d IH]; simpl.
  - reflexivity.
  - destruct (String.eqb_spec k k0) as [-> | Hk]; simpl.
    + now destruct (String.eqb_spec k' k0).
    + rewrite IH. destruct (String.eqb_spec k' k0) as [-> | Hk'];
        [|reflexivity].
      destruct (String.eqb_spec k0 k); congruence.
Qed.

Lemma getitem_filter (d : Dict) (k k' : string) :
  getitem (filter (fun kv => negb (String.eqb k (fst kv))) d) k'
  = if String.eqb k' k then None else getitem d k'.
Proof.
  induction d as [|[k0 v0] d IH]; simpl.
  - now destruct (String.eqb k' k).
  - destruct (String.eqb_spec k k0) as [-> | Hk]; simpl.
    + rewrite IH. destruct (String.eqb_spec k' k0); reflexivity.
    + rewrite IH. destruct (String.eqb_spec k' k0) as [-> | Hk'];
        [|reflexivity].
      destruct (String.eqb_spec k0 k); congruence.
Qed.

Lemma getitem_None (d : Dict) (k : string) :
  getitem d k = None <-> ~ In k (keys d).
Proof.
  induction d as [|[k0 v0] d IH]; simpl; [tauto|].
  destruct (String.eqb_spec k k0) as [-> | Hk].
  - split; [discriminate | intros H; elim H; now left].
  - rewrite IH. intuition congruence.
Qed.

Lemma getitem_update (d other : Dict) (k : string) :
  NoDup (keys other) ->
  getitem (update d other) k
  = match getitem other k with
    | Some v => Some v
    | None => getitem d k
    end.
Proof.
  unfold update. revert d.
  induction other as [|[k0 v0] other IH]; intros d Hnd; simpl.
  - reflexivity.
  - inversion Hnd as [|? ? Hnotin Hnd']; subst.
    rewrite IH by assumption. rewrite getitem_setitem.
    destruct (String.eqb_spec k k0) as [-> | Hk]; [|reflexivity].
    apply getitem_None in Hnotin. now rewrite Hnotin.
Qed.

Lemma keys_filter (d : Dict) (k : string) :
  keys (filter (fun kv => negb (String.eqb k (fst kv))) d)
  = filter (fun k' => negb (String.eqb k k')) (keys d).
Proof.
  induction d as [|[k0 v0] d IH]; simpl; [reflexivity|].
  destruct (String.eqb k k0); simpl; now rewrite IH.
Qed.

Lemma NoDup_filter {A : Type} (f : A -> bool) (xs : list A) :
  NoDup xs -> NoDup (filter f xs).
Proof.
  induction 1 as [|x xs Hnotin Hnd IH]; simpl; [constructor|].
  destruct (f x); [|assumption].
  constructor; [|assumption]. intros H. apply filter_In in H. tauto.
Qed.

Lemma getstate_drops_the_logger_only_aux (self state : Dict) :
  __getstate__ self = Returned state -> getitem state "_logger" = None.
Proof.
  unfold __getstate__, delitem, copy.
  destruct (getitem self "_logger"); [|discriminate].
  intros H.
  assert (Hs : state
               = filter (fun kv => negb (String.eqb "_logger" (fst kv))) self)
    by congruence.
  rewrite Hs. now rewrite getitem_filter.
Qed.

Lemma getstate_drops_the_logger_only_keys (self state : Dict) :
  __getstate__ self = Returned state ->
  keys state = filter (fun k => negb (String.eqb "_logger" k)) (keys self)
  /\ forall k, k <> "_logger"%string -> getitem state k = getitem self k.
Proof.
  unfold __getstate__, delitem, copy.
  destruct (getitem self "_logger"); [|discriminate].
  intros H.
  assert (Hs : state
               = filter (fun kv => negb (String.eqb "_logger" (fst kv))) self)
    by congruence.
  rewrite Hs. split; [apply keys_filter|].
  intros k Hk. rewrite getitem_filter.
  destruct (String.eqb_spec k "_logger"); congruence.
Qed.

(** X10. The state [__getstate__] returns is the [__dict__] without the
    entry of [_logger]: that key is gone, every other attribute is there
    with its value, and the keys keep their order. *)
Theorem getstate_drops_the_logger_only (self state : Dict) :
  __getstate__ self = Returned state ->
  getitem state "_logger" = None
  /\ (forall k, k <> "_logger"%string -> getitem state k = getitem self k)
  /\ keys state
     = filter (fun k => negb (String.eqb "_logger" k)) (keys self).
Proof.
  unfold __getstate__, delitem, copy.
  destruct (getitem self "_logger"); [|discriminate].
  intros H.
  assert (Hs : state
               = filter (fun kv => negb (String.eqb "_logger" (fst kv))) self)
    by congruence.
  rewrite Hs. split; [|split].
  - now rewrite getitem_filter.
  - intros k Hk. rewrite getitem_filter.
    destruct (String.eqb_spec k "_logger"); congruence.
  - apply keys_filter.
Qed.

(** X11. [__getstate__] raises KeyError('_logger') exactly when the
    instance has no [_logger] attribute.  It does not raise on an instance
    that went through [__init__] or [__setstate__]; it does raise on the
    state it returned, which has no logger any more. *)
Theorem getstate_raises_iff_there_is_no_logger (self : Dict) :
  (__getstate__ self = Raised (mkKeyError "_logger")
   <-> getitem self "_logger" = None)
  /\ (forall directory level flag,
        exists state,
          __getstate__ (__init__ self directory level flag) = Returned state)
  /\ (forall state',
        exists state, __getstate__ (__setstate__ self state') = Returned state)
  /\ (forall state,
        __getstate__ self = Returned state ->
        __getstate__ state = Raised (mkKeyError "_logger")).
Proof.
  assert (Hiff : forall d,
            __getstate__ d = Raised (mkKeyError "_logger")
            <-> getitem d "_logger" = None).
  { intros d. unfold __getstate__, delitem, copy.
    destruct (getitem d "_logger"); split; congruence. }
  assert (Hsome : forall d v,
            getitem d "_logger" = Some v ->
            exists state, __getstate__ d = Returned state).
  { intros d v H. unfold __getstate__, delitem, copy. rewrite H. eauto. }
  split; [apply Hiff|]. split; [|split].
  - intros directory level flag. eapply Hsome.
    unfold __init__. rewrite !getitem_setitem. reflexivity.
  - intros state'. eapply Hsome.
    unfold __setstate__. rewrite getitem_setitem. reflexivity.
  - intros state H. apply Hiff.
    now apply getstate_drops_the_logger_only_aux in H.
Qed.

(** X12. Unpickling what was pickled: for an instance that holds the
    logger of the module, [__setstate__] applied to the state
    [__getstate__] returned gives every attribute of the instance back,
    the logger included; attributes the target had and the instance had
    not are kept.  On a new, empty target the result has exactly the
    attributes of the instance. *)
Theorem setstate_restores_what_getstate_saved (self state : Dict) :
  NoDup (keys self) ->
  getitem self "_logger" = Some (getLogger __name__) ->
  __getstate__ self = Returned state ->
  (forall target k,
     getitem (__setstate__ target state) k
     = match getitem self k with
       | Some v => Some v
       | None => getitem target k
       end)
  /\ (forall k, getitem (__setstate__ [] state) k = getitem self k)
  /\ options (__setstate__ [] state) = options self.
Proof.
  intros Hnd Hlogger Hstate.
  assert (Hkeys : NoDup (keys state)).
  { destruct (getstate_drops_the_logger_only_keys _ Hstate) as [-> _].
    now apply NoDup_filter. }
  assert (Hget : forall target k,
            getitem (__setstate__ target state) k
            = match getitem self k with
              | Some v => Some v
              | None => getitem target k
              end).
  { intros target k. unfold __setstate__. rewrite getitem_setitem.
    destruct (String.eqb_spec k "_logger") as [-> | Hk].
    - now rewrite Hlogger.
    - rewrite getitem_update by assumption.
      destruct (getstate_drops_the_logger_only_keys _ Hstate) as [_ Hsame].
      now rewrite Hsame. }
  assert (Hnew : forall k, getitem (__setstate__ [] state) k = getitem self k).
  { intros k. rewrite Hget. now destruct (getitem self k). }
  split; [exact Hget|]. split; [exact Hnew|].
  unfold options. now rewrite !Hnew.
Qed.

(** X13. Pickling an executor made by [__init__]: [__getstate__] returns
    the three options, in the order [__init__] set them and without the
    logger, and [__setstate__] of that state, on any target instance, gives
    an instance with the same three options and the logger of the
    module. *)
Theorem unpickled_executor_has_the_same_options (self : Serial) :
  options (instance self) = Some self
  /\ exists state,
       __getstate__ (instance self) = Returned state
       /\ keys state
          = ["logging_directory"; "logging_level"; "_build_in_subprocess"]%string
       /\ forall target,
            options (__setstate__ target state) = Some self
            /\ getitem (__setstate__ target state) "_logger"
               = Some (getLogger __name__).
Proof.
  destruct self as [directory level flag].
  split; [now destruct directory|].
  exists [("logging_directory"%string, of_directory directory);
          ("logging_level"%string, PyInt level);
          ("_build_in_subprocess"%string, PyBool flag)].
  split; [reflexivity|]. split; [reflexivity|].
  intros target. split.
  - unfold options, __setstate__, update. cbn [fold_left fst snd].
    rewrite !getitem_setitem. now destruct directory.
  - unfold __setstate__. now rewrite getitem_setitem.
Qed.

End PicklingFacts.

(** * The executor on the concrete DAG *)

Module Runs.

Import Example.


(** C2 on a run: the build of [hooked] raises and so does the write of
    Errored; the exception of the write leaves [__call__], [dump] is never
    built and no DAGBuildError is raised. *)
Lemma failed_write_of_Errored_stops_the_run_witness :
  let e := boom "ValueError: hooked" in
  let e' := boom "RuntimeError: on_failure" in
  let l0 : @Locals string := mkLocals MessageCollector.new [] in
  let w1 := world (store0 []) in
  let w2 := mkEWorld [("hooked"%string, Errored)] [] in
  values (dag_tasks dag_hooked) = [] ++ hooked :: [dump]
  /\ loop in_process false kwargs [] l0 (store0 [])
     = (Returned l0, store0 [], [])
  /\ in_Skipped_Aborted (exec_status hooked (world (store0 []))) = false
  /\ build hooked kwargs (world (store0 [])) = (Raised e, w1)
  /\ got in_process hooked (Raised e) = Raised e
  /\ set_exec_status hooked Errored w1 = (Some e', w2)
  /\ __call__ in_process dag_hooked false kwargs (store0 [])
     = (Raised (Propagated e'), mkStore w2 0,
        [Executor_call "hooked"%string;
         Task_build None hooked kwargs (Raised e);
         exec_status_set hooked Errored (Some e')]).
Proof.
  intros e e' l0 w1 w2.
  assert (Htasks : values (dag_tasks dag_hooked) = [] ++ hooked :: [dump])
    by reflexivity.
  assert (Hpre : loop in_process false kwargs [] l0 (store0 [])
                 = (Returned l0, store0 [], []))
    by reflexivity.
  assert (Hg : in_Skipped_Aborted (exec_status hooked (world (store0 [])))
               = false)
    by reflexivity.
  assert (Hb : build hooked kwargs (world (store0 [])) = (Raised e, w1))
    by reflexivity.
  assert (Hgot : got in_process hooked (Raised e) = Raised e) by reflexivity.
  assert (Hs : set_exec_status hooked Errored w1 = (Some e', w2))
    by reflexivity.
  split; [exact Htasks|]. split; [exact Hpre|]. split; [exact Hg|].
  split; [exact Hb|]. split; [exact Hgot|]. split; [exact Hs|].
  exact (failed_write_of_Errored_stops_the_run in_process dag_hooked false
           kwargs (store0 []) [] hooked [dump] Htasks Hpre Hg Hb Hgot Hs).
Defined.

(** C6 on a run: [plot] builds, the write of Executed raises, the record
    and the report are appended and the loop goes on with [dump]. *)
Lemma failed_transition_is_recorded_witness :
  let e := boom "RuntimeError: on_finish" in
  let l0 : @Locals string := mkLocals MessageCollector.new [] in
  let w1 := world (store0 []) in
  let w2 := mkEWorld [("plot"%string, Executed)] [] in
  let la := mkLocals [failure_record plot e] ["report plot"%string] in
  let evt := [Task_build None plot kwargs (Returned "report plot"%string);
              exec_status_set plot Executed (Some e)] in
  loop in_process false kwargs [] l0 (store0 []) = (Returned l0, store0 [], [])
  /\ in_Skipped_Aborted (exec_status plot (world (store0 []))) = false
  /\ build plot kwargs (world (store0 []))
     = (Returned "report plot"%string, w1)
  /\ got in_process plot (Returned "report plot"%string)
     = Returned "report plot"%string
  /\ set_exec_status plot Executed w1 = (Some e, w2)
  /\ loop_body in_process false kwargs plot l0 (store0 [])
     = (Returned la, mkStore w2 0, evt)
  /\ loop in_process false kwargs ([] ++ plot :: [dump]) l0 (store0 [])
     = match loop in_process false kwargs [dump] la (mkStore w2 0) with
       | (r, s, evs) => (r, s, [] ++ evt ++ evs)
       end.
Proof.
  intros e l0 w1 w2 la evt.
  assert (Hpre : loop in_process false kwargs [] l0 (store0 [])
                 = (Returned l0, store0 [], []))
    by reflexivity.
  assert (Hg : in_Skipped_Aborted (exec_status plot (world (store0 [])))
               = false)
    by reflexivity.
  assert (Hb : build plot kwargs (world (store0 []))
               = (Returned "report plot"%string, w1))
    by reflexivity.
  assert (Hgot : got in_process plot (Returned "report plot"%string)
                 = Returned "report plot"%string)
    by reflexivity.
  assert (Hs : set_exec_status plot Executed w1 = (Some e, w2))
    by reflexivity.
  split; [exact Hpre|]. split; [exact Hg|]. split; [exact Hb|].
  split; [exact Hgot|]. split; [exact Hs|].
  destruct (failed_transition_is_recorded in_process false kwargs [] plot
              [dump] l0 (store0 []) Hpre Hg Hb Hgot Hs)
    as (Hbody & Hloop & _).
  split; [exact Hbody | exact Hloop].
Defined.

Lemma failure_free_run_returns_reports_witness :
  let its := run_iterations in_process dag_ok false kwargs (store0 []) in
  let run := __call__ in_process dag_ok false kwargs (store0 []) in
  failures (trace_of run) = []
  /\ exists rs,
       result_of run = Returned rs
       /\ List.length rs = List.length (admitted its)
       /\ Forall2 (fun it report =>
                     fst (build (it_task it) kwargs
                            (world (it_store_before it)))
                     = Returned report)
            (admitted its) rs
       /\ map it_task its = values (dag_tasks dag_ok)
       /\ (forall worker t k r,
             In (Task_build worker t k r) (trace_of run) -> k = kwargs).
Proof.
  intros its run.
  assert (Hnone : failures (trace_of run) = []) by reflexivity.
  split; [exact Hnone|].
  exact (failure_free_run_returns_reports in_process dag_ok false kwargs
           (store0 []) Hnone).
Defined.

(** C1 on a run with three failures, none of them in a write of
    Errored. *)
Lemma run_raises_iff_failures_collected_witness :
  let its := run_iterations Serial_default dag_mixed true kwargs (store0 []) in
  let run := __call__ Serial_default dag_mixed true kwargs (store0 []) in
  let collected :=
    exceptions (final_locals (mkLocals MessageCollector.new []) its) in
  filter is_Errored_raise (trace_of run) = []
  /\ collected = failures (trace_of run)
  /\ ((exists m, result_of run = Raised (DAGBuildError m))
      <-> collected <> [])
  /\ (collected <> [] ->
      result_of run
      = Raised (DAGBuildError
                  (DAGBuildError_header
                   ++ MessageCollector.str collected)%string)).
Proof.
  intros its run collected.
  assert (Hquiet : filter is_Errored_raise (trace_of run) = [])
    by reflexivity.
  split; [exact Hquiet|].
  destruct (run_raises_iff_failures_collected Serial_default dag_mixed true
              kwargs (store0 []) Hquiet) as (Hc & Hiff & Hmsg & _).
  split; [exact Hc|]. split; [exact Hiff | exact Hmsg].
Defined.

Lemma pool_is_left_open_when_the_build_raises_witness :
  let e := boom "ValueError: clean" in
  build clean kwargs (world (store0 [])) = (Raised e, world (store0 []))
  /\ execute_in_subprocess clean kwargs (store0 [])
     = (Raised (reraised e), mkStore (world (store0 [])) 1,
        [Pool_new 0 1; Pool_apply_async 0 clean kwargs;
         Task_build (Some 0) clean kwargs (Raised e);
         AsyncResult_get 0 clean (Raised (reraised e))]).
Proof.
  intros e.
  assert (Hbuild : build clean kwargs (world (store0 []))
                   = (Raised e, world (store0 [])))
    by reflexivity.
  split; [exact Hbuild|].
  exact (pool_is_left_open_when_the_build_raises clean kwargs (store0 [])
           Hbuild).
Defined.

(** C8, on a run: the executor with its default options builds [clean],
    whose build raises, in a pool that is made and never closed nor
    joined. *)
Lemma pool_left_open_in_a_run :
  let evs := trace_of (__call__ Serial_default dag_clean false kwargs (store0 [])) in
  flat_map pool_new_of evs = [0]
  /\ flat_map pool_closed_of evs = []
  /\ flat_map pool_joined_of evs = [].
Proof. repeat split. Qed.

(** The same when the build returns a report that cannot be sent back:
    [get] raises, the pool is left open and the task is set to Errored. *)
Lemma pool_left_open_although_the_build_returned :
  let evs := trace_of (__call__ Serial_default dag_fit false kwargs (store0 [])) in
  flat_map pool_new_of evs = [0]
  /\ flat_map pool_closed_of evs = []
  /\ flat_map pool_joined_of evs = []
  /\ In (Task_build (Some 0) fit kwargs (Returned "report with a lock"%string))
       evs
  /\ In (exec_status_set fit Errored None) evs.
Proof. repeat split; simpl; auto 10. Qed.

(** C1 as stated fails: the message of the error is not the rendered
    records alone. *)
Lemma message_is_not_the_rendering_alone :
  let run := __call__ Serial_default dag_clean false kwargs (store0 []) in
  ~ (forall m,
       result_of run = Raised (DAGBuildError m) ->
       m = MessageCollector.str (failures (trace_of run))).
Proof.
  intros run H. specialize (H _ eq_refl). vm_compute in H. discriminate H.
Qed.

(** C3 as stated fails: a client registered under two names is closed
    twice. *)
Lemma shared_client_is_closed_twice :
  let run := __call__ in_process dag_ok false kwargs (store0 []) in
  ~ (forall c, count_occ Nat.eq_dec (closed (trace_of run)) c <= 1).
Proof.
  intros run H. specialize (H 7). vm_compute in H. lia.
Qed.



(** And the failure record of a build that raises in a pool holds the trace
    of the exception [get] reraised, not the one an in-process build
    leaves. *)
Lemma remote_traceback_is_recorded :
  failures (trace_of (__call__ Serial_default dag_clean false kwargs
                        (store0 [])))
  = [failure_record clean (reraised (boom "ValueError: clean"))]
  /\ failures (trace_of (__call__ in_process dag_clean false kwargs
                           (store0 [])))
     = [failure_record clean (boom "ValueError: clean")]
  /\ reraised (boom "ValueError: clean") <> boom "ValueError: clean".
Proof. repeat split. discriminate. Qed.


End Runs.

(** * More runs, and a pickled executor *)

Module MoreRuns.

Import Example.

Lemma nothing_to_build_witness :
  let run := __call__ in_process dag_stopped true kwargs dump_aborted in
  (forall t, In t (values (dag_tasks dag_stopped)) ->
     exec_status t (world dump_aborted) = Skipped
     \/ exec_status t (world dump_aborted) = Aborted)
  /\ result_of run = Returned []
  /\ store_of run = cleanup_store in_process dag_stopped dump_aborted
  /\ trace_of run
     = start_events in_process dag_stopped true
       ++ cleanup_events in_process dag_stopped.
Proof.
  intros run.
  assert (Hall : forall t, In t (values (dag_tasks dag_stopped)) ->
            exec_status t (world dump_aborted) = Skipped
            \/ exec_status t (world dump_aborted) = Aborted).
  { intros t [<- | []]. right. reflexivity. }
  split; [exact Hall|].
  exact (nothing_to_build in_process dag_stopped true kwargs dump_aborted Hall).
Defined.

(** X4 on a run: after [load], [clean] and [dump], the turn of [plot]
    leaves its report and the record of the failed write of Executed. *)
Lemma every_admitted_turn_leaves_a_report_or_a_record_witness :
  let l0 : @Locals string := mkLocals MessageCollector.new [] in
  let pre := [load; clean; dump] in
  let lb :=
    mkLocals [failure_record clean (boom "ValueError: clean")]
      ["report load"%string; "report dump"%string] in
  let sb :=
    mkStore (mkEWorld [("dump", Executed); ("clean", Errored);
                       ("load", Executed)]%string []) 0 in
  let evb :=
    [Task_build None load kwargs (Returned "report load"%string);
     exec_status_set load Executed None;
     Task_build None clean kwargs (Raised (boom "ValueError: clean"));
     exec_status_set clean Errored None;
     Task_build None dump kwargs (Returned "report dump"%string);
     exec_status_set dump Executed None] in
  loop in_process false kwargs pre l0 (store0 []) = (Returned lb, sb, evb)
  /\ exists sa evt,
       loop in_process false kwargs (pre ++ [plot]) l0 (store0 [])
       = (Returned
            (mkLocals
               (exceptions lb
                ++ [failure_record plot (boom "RuntimeError: on_finish")])
               (task_reports lb ++ ["report plot"%string])),
          sa, evb ++ evt).
Proof.
  intros l0 pre lb sb evb.
  assert (Hpre : loop in_process false kwargs pre l0 (store0 [])
                 = (Returned lb, sb, evb))
    by reflexivity.
  split; [exact Hpre|].
  destruct (every_admitted_turn_leaves_a_report_or_a_record in_process false
              kwargs pre plot l0 (store0 []) Hpre)
    as (sa & evt & Hloop & _).
  exists sa, evt. exact Hloop.
Defined.

(** X5 on a run with three failing turns out of five. *)
Lemma failure_records_follow_the_tasks_witness :
  let run := loop Serial_default true kwargs (values (dag_tasks dag_mixed))
               (mkLocals MessageCollector.new []) (store0 []) in
  let lf := match result_of run with
            | Returned l => l
            | Raised _ => mkLocals MessageCollector.new []
            end in
  run = (Returned lf, store_of run, trace_of run)
  /\ map MessageCollector.task_str (exceptions lf)
     = ["Task(clean)"; "Task(plot)"; "Task(upload)"]%string
  /\ map MessageCollector.task_str (exceptions lf)
     = map repr (flat_map failed_task_of (trace_of run))
  /\ (exceptions lf <> [] ->
      result_of (__call__ Serial_default dag_mixed true kwargs (store0 []))
      = Raised (DAGBuildError
                  (DAGBuildError_header
                   ++ MessageCollector.str (exceptions lf))%string)).
Proof.
  intros run lf.
  assert (Hloop : loop Serial_default true kwargs
                    (values (dag_tasks dag_mixed))
                    (mkLocals MessageCollector.new []) (store0 [])
                  = (Returned lf, store_of run, trace_of run))
    by reflexivity.
  split; [exact Hloop|]. split; [reflexivity|].
  destruct (failure_records_follow_the_tasks Serial_default dag_mixed true
              kwargs (store0 []) Hloop) as (Hids & _ & _ & Hmsg).
  split; [exact Hids | exact Hmsg].
Defined.

Lemma nothing_is_built_after_the_cleanup_witness :
  let before :=
    [Executor_call "ok"%string;
     Task_build None load kwargs (Returned "report load"%string);
     exec_status_set load Executed None;
     Task_build None dump kwargs (Returned "report dump"%string);
     exec_status_set dump Executed None] in
  trace_of (__call__ in_process dag_ok false kwargs (store0 []))
  = before ++ Client_close 7 :: [Client_close 7]
  /\ (is_LoggerHandler_remove
        (Client_close 7 : @Event ETask EKwargs string nat) = true
      \/ is_Client_close
           (Client_close 7 : @Event ETask EKwargs string nat) = true)
  /\ forall ev', In ev' [Client_close 7] ->
       exists c, ev' = (Client_close c : @Event ETask EKwargs string nat).
Proof.
  intros before.
  assert (Heq : trace_of (__call__ in_process dag_ok false kwargs (store0 []))
                = before ++ Client_close 7 :: [Client_close 7])
    by reflexivity.
  assert (Hev : is_LoggerHandler_remove
                  (Client_close 7 : @Event ETask EKwargs string nat) = true
                \/ is_Client_close
                     (Client_close 7 : @Event ETask EKwargs string nat) = true)
    by (right; reflexivity).
  split; [exact Heq|]. split; [exact Hev|].
  exact (nothing_is_built_after_the_cleanup in_process dag_ok false kwargs
           (store0 []) before (Client_close 7) [Client_close 7] Heq Hev).
Defined.

Lemma getstate_drops_the_logger_only_witness :
  let self := Pickling.instance logged in
  let state :=
    [("logging_directory", Pickling.PyStr "logs");
     ("logging_level", Pickling.PyInt 20);
     ("_build_in_subprocess", Pickling.PyBool true)]%string in
  Pickling.__getstate__ self = Returned state
  /\ Pickling.getitem state "_logger" = None
  /\ (forall k, k <> "_logger"%string ->
        Pickling.getitem state k = Pickling.getitem self k)
  /\ Pickling.keys state
     = filter (fun k => negb (String.eqb "_logger" k)) (Pickling.keys self).
Proof.
  intros self state.
  assert (Hstate : Pickling.__getstate__ self = Returned state) by reflexivity.
  split; [exact Hstate|].
  exact (@PicklingFacts.getstate_drops_the_logger_only self state Hstate).
Defined.

Lemma setstate_restores_what_getstate_saved_witness :
  let self := Pickling.instance logged in
  let state :=
    [("logging_directory", Pickling.PyStr "logs");
     ("logging_level", Pickling.PyInt 20);
     ("_build_in_subprocess", Pickling.PyBool true)]%string in
  NoDup (Pickling.keys self)
  /\ Pickling.getitem self "_logger"
     = Some (Pickling.getLogger Pickling.__name__)
  /\ Pickling.__getstate__ self = Returned state
  /\ (forall k, Pickling.getitem (Pickling.__setstate__ [] state) k
               = Pickling.getitem self k)
  /\ Pickling.options (Pickling.__setstate__ [] state)
     = Pickling.options self.
Proof.
  intros self state.
  assert (Hnd : NoDup (Pickling.keys self)).
  { repeat constructor; simpl; intuition discriminate. }
  assert (Hlogger : Pickling.getitem self "_logger"
                    = Some (Pickling.getLogger Pickling.__name__))
    by reflexivity.
  assert (Hstate : Pickling.__getstate__ self = Returned state) by reflexivity.
  split; [exact Hnd|]. split; [exact Hlogger|]. split; [exact Hstate|].
  exact (proj2 (@PicklingFacts.setstate_restores_what_getstate_saved
                  self state Hnd Hlogger Hstate)).
Defined.

End MoreRuns.
